(** * Crown web page: client-side controllers

    A shallow embedding of the two browser scripts of the site:

    - the slideshow / thumbnail gallery / lightbox controller
      (module [Portfolio]), and
    - the order-form validator and submitter (module [OrderForm]).

    JavaScript values are embedded as follows.  Strings are [string]s
    holding the text in generalized UTF-8: every code point is written
    as in UTF-8, and a surrogate code unit that is not half of a pair
    as the three bytes [ED A0..BF 80..BF] of its code point.  A nullable
    element reference is a
    [bool] (was the element found?) or an [option]; a DOM property that
    the scripts read or write is a record field.  Effects on the outside
    world (timers, image loads, network requests, navigation, scrolling)
    are explicit components of the state. *)

From Stdlib Require Import String Ascii DecimalString DecimalNat Arith ZArith Bool Lia.
From stdpp Require Import list strings gmap.

(** ** JavaScript primitives shared by both scripts *)

Module Js.

(** [ToBoolean] on a string: only the empty string is falsy. *)
Definition truthy (s : string) : bool :=
  match s with
  | EmptyString => false
  | String _ _ => true
  end.

(** [a || b] on strings. *)
Definition or_else (a b : string) : string :=
  if truthy a then a else b.

(** [ToBoolean] on a value that may be [undefined]/[null]. *)
Definition truthy_opt (o : option string) : bool :=
  match o with
  | Some s => truthy s
  | None => false
  end.

(** [a || b] where [a] may be [undefined]/[null] and [b] is a string. *)
Definition opt_or (a : option string) (b : string) : string :=
  match a with
  | Some s => or_else s b
  | None => b
  end.

(** [String(n)] for a non-negative integer. *)
Definition string_of_nat (n : nat) : string :=
  NilEmpty.string_of_uint (Nat.to_uint n).

Definition bytes (l : list nat) : string :=
  string_of_list_ascii (map ascii_of_nat l).

Definition rev_string (s : string) : string :=
  string_of_list_ascii (rev (list_ascii_of_string s)).

(** The characters [String.prototype.trim] removes, as UTF-8: the
    ECMAScript WhiteSpace and LineTerminator code points
    (TAB, LF, VT, FF, CR, SP, U+00A0, U+1680, U+2000..U+200A, U+2028,
    U+2029, U+202F, U+205F, U+3000, U+FEFF). *)
Definition white_space : list string :=
  map bytes
    [ [9]; [10]; [11]; [12]; [13]; [32];
      [194; 160];
      [225; 154; 128];
      [226; 128; 128]; [226; 128; 129]; [226; 128; 130]; [226; 128; 131];
      [226; 128; 132]; [226; 128; 133]; [226; 128; 134]; [226; 128; 135];
      [226; 128; 136]; [226; 128; 137]; [226; 128; 138];
      [226; 128; 168]; [226; 128; 169]; [226; 128; 175];
      [226; 129; 159];
      [227; 128; 128];
      [239; 187; 191] ].

(** Number of bytes of the entry of [tbl] that [s] starts with, [0] if
    it starts with none. *)
Definition width (tbl : list string) (s : string) : nat :=
  match List.find (fun p => String.prefix p s) tbl with
  | Some p => String.length p
  | None => 0
  end.

(** Drop [skip] bytes, then every leading entry of [tbl]. *)
Fixpoint skip_all (tbl : list string) (skip : nat) (s : string) {struct s} : string :=
  match skip with
  | S k =>
      match s with
      | String _ r => skip_all tbl k r
      | EmptyString => s
      end
  | 0 =>
      match width tbl s with
      | 0 => s
      | S k =>
          match s with
          | String _ r => skip_all tbl k r
          | EmptyString => s
          end
      end
  end.

Definition trimStart (s : string) : string :=
  skip_all white_space 0 s.

Definition trimEnd (s : string) : string :=
  rev_string (skip_all (map rev_string white_space) 0 (rev_string s)).

(** [s.trim()] *)
Definition trim (s : string) : string :=
  trimEnd (trimStart s).

(** [s.replace(/\*$/, empty)]: one asterisk at the very end is removed. *)
Fixpoint strip_star (s : string) : string :=
  match s with
  | EmptyString => EmptyString
  | String c EmptyString => if Ascii.eqb c "*" then EmptyString else s
  | String c r => String c (strip_star r)
  end.

Definition between (lo hi n : nat) : bool :=
  (lo <=? n) && (n <=? hi).

(** Characters [encodeURIComponent] leaves alone:
    letters, digits and [- _ . ! ~ * ' ( )]. *)
Definition unreserved (c : ascii) : bool :=
  let n := nat_of_ascii c in
  between 65 90 n || between 97 122 n || between 48 57 n
  || bool_decide (n ∈ [45; 95; 46; 33; 126; 42; 39; 40; 41]).

Definition hex_upper (n : nat) : ascii :=
  ascii_of_nat (if n <? 10 then 48 + n else 55 + n).

Definition hex_lower (n : nat) : ascii :=
  ascii_of_nat (if n <? 10 then 48 + n else 87 + n).

Definition percent (c : ascii) : string :=
  let n := nat_of_ascii c in
  String "%" (String (hex_upper (n / 16)) (String (hex_upper (n mod 16)) EmptyString)).

(** The first two bytes of a surrogate that is not half of a pair. *)
Definition surrogate_lead (c d : ascii) : bool :=
  (nat_of_ascii c =? 237) && between 160 191 (nat_of_ascii d).

(** [encodeURIComponent(s)]: every byte of the UTF-8 encoding that is
    not unreserved becomes [%XX]; [None] stands for the [URIError]
    thrown when [s] holds a surrogate that is not half of a pair. *)
Fixpoint encodeURIComponent (s : string) : option string :=
  match s with
  | EmptyString => Some EmptyString
  | String c r =>
      if match r with
         | String d _ => surrogate_lead c d
         | EmptyString => false
         end
      then None
      else option_map
             (fun e => (if unreserved c then String c EmptyString else percent c) +:+ e)
             (encodeURIComponent r)
  end.

Definition quote : ascii := ascii_of_nat 34.
Definition backslash : ascii := ascii_of_nat 92.

Definition escape2 (c : ascii) : string :=
  String backslash (String c EmptyString).

(** One character inside a JSON string literal (QuoteJSONString). *)
Definition json_char (c : ascii) : string :=
  let n := nat_of_ascii c in
  if n =? 34 then escape2 quote
  else if n =? 92 then escape2 backslash
  else if n =? 8 then escape2 "b"
  else if n =? 9 then escape2 "t"
  else if n =? 10 then escape2 "n"
  else if n =? 12 then escape2 "f"
  else if n =? 13 then escape2 "r"
  else if n <? 32 then
    String backslash
      (String "u" (String "0" (String "0"
        (String (hex_lower (n / 16)) (String (hex_lower (n mod 16)) EmptyString)))))
  else String c EmptyString.

(** A surrogate that is not half of a pair, with second and third
    bytes [d] and [e], inside a JSON string literal: the escape
    [\uDXXX] of its code unit, in lower case. *)
Definition json_surrogate (d e : ascii) : string :=
  let low := (nat_of_ascii d - 128) * 64 + (nat_of_ascii e - 128) in
  String backslash
    (String "u" (String "d"
      (String (hex_lower (low / 256))
        (String (hex_lower ((low / 16) mod 16))
          (String (hex_lower (low mod 16)) EmptyString))))).

Fixpoint json_chars (s : string) : string :=
  match s with
  | EmptyString => EmptyString
  | String c r =>
      match r with
      | String d (String e r') =>
          if surrogate_lead c d then json_surrogate d e +:+ json_chars r'
          else json_char c +:+ json_chars r
      | _ => json_char c +:+ json_chars r
      end
  end.

(** [JSON.stringify(s)] for a string [s]. *)
Definition json_string (s : string) : string :=
  String quote (json_chars s +:+ String quote EmptyString).

(** [xs.join(sep)] *)
Fixpoint join (sep : string) (xs : list string) : string :=
  match xs with
  | [] => EmptyString
  | [x] => x
  | x :: rest => x +:+ sep +:+ join sep rest
  end.

(** A Number that [JSON.parse] can yield, as [Number::toString] sees
    it: zero of either sign, an infinity (a literal too large for a
    double), or a finite value [0.d1...dk] times ten to the [n], where
    [d1...dk] are the decimal digits of [digits] without its trailing
    zeros.  These are the integers [s], [k] and [n] of the
    specification of [Number::toString]. *)
Inductive Number :=
| Zero
| Infinite (negative : bool)
| Finite (negative : bool) (digits : positive) (n : Z).

Fixpoint drop_zeros (l : list ascii) : list ascii :=
  match l with
  | c :: r => if Ascii.eqb c "0" then drop_zeros r else l
  | [] => []
  end.

(** The decimal digits of [s] without trailing zeros. *)
Definition significand (s : positive) : string :=
  string_of_list_ascii
    (rev (drop_zeros (rev (list_ascii_of_string (NilEmpty.string_of_uint (Pos.to_uint s)))))).

Definition zeros (k : nat) : string :=
  string_of_list_ascii (repeat "0"%char k).

Definition minus_sign (negative : bool) : string :=
  if negative then "-" else EmptyString.

(** [Number::toString(x, 10)] *)
Definition number_to_string (x : Number) : string :=
  match x with
  | Zero => "0"
  | Infinite negative => minus_sign negative +:+ "Infinity"
  | Finite negative s n =>
      let ds := significand s in
      let k := String.length ds in
      minus_sign negative +:+
      (if (-5 <=? n)%Z && (n <=? 21)%Z then
         if (Z.of_nat k <=? n)%Z then ds +:+ zeros (Z.to_nat n - k)
         else if (0 <? n)%Z then
           String.substring 0 (Z.to_nat n) ds +:+ "."
           +:+ String.substring (Z.to_nat n) (k - Z.to_nat n) ds
         else "0." +:+ zeros (Z.to_nat (- n)) +:+ ds
       else
         let e := (n - 1)%Z in
         let exponent :=
           "e" +:+ (if (e <? 0)%Z then "-" else "+") +:+ string_of_nat (Z.abs_nat e) in
         match ds with
         | String d EmptyString => String d exponent
         | String d r => String d ("." +:+ r +:+ exponent)
         | EmptyString => exponent
         end)
  end.

End Js.

(** ** Slideshow, gallery and lightbox controller *)

Module Portfolio.

(** *** Configuration and page *)

Record Config := {
  FOLDER : string;
  THUMB_FOLDER : string;
  BASENAME : string;
  EXT : string;
  COUNT : nat;
  AUTOPLAY_MS : nat
}.

(** The constants of the script. *)
Definition site : Config := {|
  FOLDER := "images/Collection/Slides/";
  THUMB_FOLDER := "images/Collection/Thumbs/";
  BASENAME := "slide-";
  EXT := "webp";
  COUNT := 44;
  AUTOPLAY_MS := 4500
|}.

(** The results of the [document.getElementById] calls at the top of the
    script: [true] when the element exists, [false] for [null]. *)
Record Page := {
  slidesTrack : bool;
  statusEl : bool;
  galleryEl : bool;
  lightbox : bool;
  lightboxImg : bool;
  lightboxCaption : bool;
  lightboxClose : bool;
  lightboxBackdrop : bool
}.

(** *** State *)

(** The slide index is a JavaScript number; [% 0] yields [NaN]. *)
Inductive Num :=
| Fin (n : nat)
| NaN.

(** The [<figure class="slide active"><img ...></figure>] built by
    [renderSlide]. *)
Record Slide := {
  fig_class : string;
  img_src : string;
  img_alt : string;
  img_draggable : bool;
  img_cursor : string;
  img_pointerEvents : string
}.

(** One gallery button with its image; [th_url] and [th_label] are the
    values captured by the button's click listener. *)
Record Thumb := {
  btn_type : string;
  btn_class : string;
  btn_aria_label : string;
  th_alt : string;
  th_loading : string;
  th_decoding : string;
  th_data_src : option string;
  th_src : option string;
  th_observed : bool;
  th_url : string;
  th_label : string
}.

(** Script variables [idx] and the slideshow part of the document. *)
Record Slideshow := {
  idx : Num;
  track : list Slide;
  status : string
}.

(** Script variable [autoplay] and the browser's table of intervals:
    [active] lists the interval ids that are scheduled, [last_id] is the
    last id handed out ([setInterval] returns integers greater than
    zero, never reused). *)
Record Timer := {
  autoplay : option nat;
  active : list nat;
  last_id : nat
}.

Record Lightbox := {
  lb_hidden : bool;
  lb_aria_hidden : option string;
  lb_src : option string;
  lb_caption : string
}.

(** The gallery, its intersection observer, and the log of every
    assignment [img.src = realSrc] (thumbnail number and URL), each of
    which makes the browser fetch the image. *)
Record Gallery := {
  thumbs : list Thumb;
  rootMargin : option string;
  loads : list (nat * string)
}.

Record State := {
  show : Slideshow;
  timer : Timer;
  lbox : Lightbox;
  gal : Gallery
}.

Definition with_show (s : State) (x : Slideshow) : State :=
  {| show := x; timer := timer s; lbox := lbox s; gal := gal s |}.
Definition with_timer (s : State) (x : Timer) : State :=
  {| show := show s; timer := x; lbox := lbox s; gal := gal s |}.
Definition with_lbox (s : State) (x : Lightbox) : State :=
  {| show := show s; timer := timer s; lbox := x; gal := gal s |}.
Definition with_gal (s : State) (x : Gallery) : State :=
  {| show := show s; timer := timer s; lbox := lbox s; gal := x |}.

(** Events the browser dispatches to the script. *)
Inductive Event :=
| Tick (id : nat)
| ThumbClick (i : nat)
| CloseClick
| BackdropClick
| KeyDown (key : string)
| VisibilityChange (hidden : bool)
| Intersection (entries : list (nat * bool)).

Section Controller.

Variable cfg : Config.
Variable pg : Page.

(** [`${dir}${BASENAME}${i + 1}.${EXT}`] *)
Definition image_url (dir : string) (i : nat) : string :=
  dir +:+ BASENAME cfg +:+ Js.string_of_nat (i + 1) +:+ "." +:+ EXT cfg.

Definition fullImages : list string :=
  map (image_url (FOLDER cfg)) (seq 0 (COUNT cfg)).

Definition thumbImages : list string :=
  map (image_url (THUMB_FOLDER cfg)) (seq 0 (COUNT cfg)).

(** [`${idx + 1}`] *)
Definition ordinal (x : Num) : string :=
  match x with
  | Fin n => Js.string_of_nat (n + 1)
  | NaN => "NaN"
  end.

(** [fullImages[idx]], converted to a string by the [src] setter. *)
Definition image_at (x : Num) : string :=
  match x with
  | Fin n => default "undefined" (fullImages !! n)
  | NaN => "undefined"
  end.

(** [(idx + 1) % fullImages.length] *)
Definition advance (x : Num) : Num :=
  match x with
  | Fin n => if length fullImages =? 0 then NaN else Fin ((n + 1) mod length fullImages)
  | NaN => NaN
  end.

Definition updateStatus (sh : Slideshow) : Slideshow :=
  if negb (statusEl pg) then sh
  else {| idx := idx sh; track := track sh;
          status := if length fullImages =? 0 then EmptyString
                    else ordinal (idx sh) +:+ " / " +:+ Js.string_of_nat (length fullImages) |}.

Definition slide_of (x : Num) : Slide := {|
  fig_class := "slide active";
  img_src := image_at x;
  img_alt := "Portfolio image " +:+ ordinal x;
  img_draggable := false;
  img_cursor := "default";
  img_pointerEvents := "none"
|}.

Definition renderSlide (sh : Slideshow) : Slideshow :=
  if negb (slidesTrack pg) then sh
  else updateStatus {| idx := idx sh; track := [slide_of (idx sh)]; status := status sh |}.

(** [clearInterval(id)] *)
Definition clearInterval (id : nat) (t : Timer) : Timer :=
  {| autoplay := autoplay t;
     active := List.filter (fun x => negb (x =? id)) (active t);
     last_id := last_id t |}.

Definition stopAutoplay (t : Timer) : Timer :=
  let t1 := match autoplay t with
            | Some (S _ as id) => clearInterval id t
            | _ => t
            end in
  {| autoplay := None; active := active t1; last_id := last_id t1 |}.

Definition startAutoplay (t : Timer) : Timer :=
  let t1 := stopAutoplay t in
  let id := S (last_id t1) in
  {| autoplay := Some id; active := id :: active t1; last_id := id |}.

(** The interval callback. *)
Definition tick (sh : Slideshow) : Slideshow :=
  renderSlide {| idx := advance (idx sh); track := track sh; status := status sh |}.

(** A handler that dereferences [lightboxImg] or [lightboxCaption] while
    it is [null] throws there, and keeps the effects made so far. *)
Definition openLightbox (url label : string) (s : State) : State :=
  if negb (lightbox pg) then s
  else if negb (lightboxImg pg) then s
  else
    let l1 := {| lb_hidden := lb_hidden (lbox s); lb_aria_hidden := lb_aria_hidden (lbox s);
                 lb_src := Some url; lb_caption := lb_caption (lbox s) |} in
    if negb (lightboxCaption pg) then with_lbox s l1
    else
      let l2 := {| lb_hidden := false; lb_aria_hidden := Some "false";
                   lb_src := Some url; lb_caption := Js.or_else label EmptyString |} in
      with_timer (with_lbox s l2) (stopAutoplay (timer s)).

Definition closeLightbox (s : State) : State :=
  if negb (lightbox pg) then s
  else
    let l1 := {| lb_hidden := true; lb_aria_hidden := Some "true";
                 lb_src := lb_src (lbox s); lb_caption := lb_caption (lbox s) |} in
    if negb (lightboxImg pg) then with_lbox s l1
    else
      let l2 := {| lb_hidden := true; lb_aria_hidden := Some "true";
                   lb_src := None; lb_caption := lb_caption (lbox s) |} in
      with_timer (with_lbox s l2) (startAutoplay (timer s)).

(** The button and image built for slide [i] by [renderGallery]. *)
Definition thumb_of (i : nat) (url : string) : Thumb := {|
  btn_type := "button";
  btn_class := "gallery-thumb";
  btn_aria_label := "Open image " +:+ Js.string_of_nat (i + 1);
  th_alt := "Portfolio thumbnail " +:+ Js.string_of_nat (i + 1);
  th_loading := "lazy";
  th_decoding := "async";
  th_data_src := Some (Js.opt_or (thumbImages !! i) url);
  th_src := None;
  th_observed := true;
  th_url := url;
  th_label := "Image " +:+ Js.string_of_nat (i + 1) +:+ " / "
              +:+ Js.string_of_nat (length fullImages)
|}.

Definition renderGallery (g : Gallery) : Gallery :=
  if negb (galleryEl pg) then g
  else {| thumbs := imap thumb_of fullImages;
          rootMargin := Some "350px 0px";
          loads := loads g |}.

(** One iteration of the loop in the observer callback. *)
Definition promote (th : Thumb) : Thumb :=
  match th_data_src th with
  | Some realSrc =>
      if Js.truthy realSrc then
        {| btn_type := btn_type th; btn_class := btn_class th;
           btn_aria_label := btn_aria_label th; th_alt := th_alt th;
           th_loading := th_loading th; th_decoding := th_decoding th;
           th_data_src := None; th_src := Some realSrc; th_observed := false;
           th_url := th_url th; th_label := th_label th |}
      else
        {| btn_type := btn_type th; btn_class := btn_class th;
           btn_aria_label := btn_aria_label th; th_alt := th_alt th;
           th_loading := th_loading th; th_decoding := th_decoding th;
           th_data_src := th_data_src th; th_src := th_src th; th_observed := false;
           th_url := th_url th; th_label := th_label th |}
  | None =>
      {| btn_type := btn_type th; btn_class := btn_class th;
         btn_aria_label := btn_aria_label th; th_alt := th_alt th;
         th_loading := th_loading th; th_decoding := th_decoding th;
         th_data_src := None; th_src := th_src th; th_observed := false;
         th_url := th_url th; th_label := th_label th |}
  end.

(** The URL that [promote] assigns to [img.src], if it assigns one. *)
Definition pending_src (th : Thumb) : option string :=
  match th_data_src th with
  | Some realSrc => if Js.truthy realSrc then Some realSrc else None
  | None => None
  end.

Definition on_entry (g : Gallery) (e : nat * bool) : Gallery :=
  if negb (snd e) then g
  else match thumbs g !! fst e with
       | None => g
       | Some th =>
           {| thumbs := alter promote (fst e) (thumbs g);
              rootMargin := rootMargin g;
              loads := match pending_src th with
                       | Some u => loads g ++ [(fst e, u)]
                       | None => loads g
                       end |}
       end.

Definition on_intersection (entries : list (nat * bool)) (g : Gallery) : Gallery :=
  fold_left on_entry entries g.

(** *** Event dispatch *)

(** Which events can occur: an interval fires only while it is
    scheduled, a click needs the element and its listener. *)
Definition enabled (s : State) (e : Event) : bool :=
  match e with
  | Tick id => bool_decide (id ∈ active (timer s))
  | ThumbClick i => bool_decide (is_Some (thumbs (gal s) !! i))
  | CloseClick => lightboxClose pg
  | BackdropClick => lightboxBackdrop pg
  | KeyDown _ => true
  | VisibilityChange _ => true
  | Intersection _ => bool_decide (is_Some (rootMargin (gal s)))
  end.

Definition handle (s : State) (e : Event) : State :=
  match e with
  | Tick _ => with_show s (tick (show s))
  | ThumbClick i =>
      match thumbs (gal s) !! i with
      | Some th => openLightbox (th_url th) (th_label th) s
      | None => s
      end
  | CloseClick => closeLightbox s
  | BackdropClick => closeLightbox s
  | KeyDown key =>
      if String.eqb key "Escape" && lightbox pg && negb (lb_hidden (lbox s))
      then closeLightbox s else s
  | VisibilityChange hidden =>
      with_timer s (if hidden then stopAutoplay (timer s) else startAutoplay (timer s))
  | Intersection entries => with_gal s (on_intersection entries (gal s))
  end.

(** *** Script start *)

(** The document as the markup delivers it, before the script runs:
    the content of the slide track and status label, the lightbox, and
    the last interval id the browser has handed out so far. *)
Record Markup := {
  m_track : list Slide;
  m_status : string;
  m_lbox : Lightbox;
  m_last_id : nat
}.

Definition load (m : Markup) : State :=
  let s0 := {| show := {| idx := Fin 0; track := m_track m; status := m_status m |};
               timer := {| autoplay := None; active := []; last_id := m_last_id m |};
               lbox := m_lbox m;
               gal := {| thumbs := []; rootMargin := None; loads := [] |} |} in
  if length fullImages =? 0 then
    if statusEl pg
    then with_show s0 {| idx := Fin 0; track := m_track m; status := "No images found." |}
    else s0
  else
    let s1 := with_show s0 (renderSlide (show s0)) in
    let s2 := with_gal s1 (renderGallery (gal s1)) in
    with_timer s2 (startAutoplay (timer s2)).

(** States the page can be in: after the script has run, and after any
    event that can occur. *)
Inductive reachable : State -> Prop :=
| reachable_load (m : Markup) : reachable (load m)
| reachable_step (s : State) (e : Event) :
    reachable s -> enabled s e = true -> reachable (handle s e).

Definition run (s : State) (es : list Event) : State :=
  fold_left handle es s.

(** Can the events of [es] occur one after the other from [s]? *)
Fixpoint possible (s : State) (es : list Event) : bool :=
  match es with
  | [] => true
  | e :: rest => enabled s e && possible (handle s e) rest
  end.

(** *** Notions used to state the properties *)

(** The autoplay timer is stopped: the handle is [null] and no interval
    is scheduled, so no tick can fire. *)
Definition stopped (s : State) : Prop :=
  autoplay (timer s) = None /\ active (timer s) = [].

(** [openLightbox] runs to its end: the lightbox, its image and its
    caption element all exist. *)
Definition opens : bool :=
  lightbox pg && lightboxImg pg && lightboxCaption pg.

(** The page becomes visible again. *)
Definition is_resume (e : Event) : bool :=
  match e with
  | VisibilityChange false => true
  | _ => false
  end.

(** States in which the lightbox is open: a click on a thumbnail has
    opened it, and every event since has left it revealed.  Only events
    accepted by [allowed] are considered. *)
Inductive viewing_with (allowed : Event -> bool) : State -> Prop :=
| viewing_open (s : State) (i : nat) :
    reachable s -> enabled s (ThumbClick i) = true -> opens = true ->
    viewing_with allowed (handle s (ThumbClick i))
| viewing_step (s : State) (e : Event) :
    viewing_with allowed s -> enabled s e = true -> allowed e = true ->
    lb_hidden (lbox (handle s e)) = false ->
    viewing_with allowed (handle s e).

Definition viewing : State -> Prop :=
  viewing_with (fun _ => true).

Definition viewing_without_resume : State -> Prop :=
  viewing_with (fun e => negb (is_resume e)).

(** The handle and the browser's interval table agree: the interval
    named by [autoplay], if any, is the only one scheduled. *)
Definition timer_ok (t : Timer) : Prop :=
  match autoplay t with
  | Some id => active t = [id] /\ 0 < id <= last_id t
  | None => active t = []
  end.

(** Has thumbnail [i] been reported as intersecting by the entries? *)
Definition reports (i : nat) (entries : list (nat * bool)) : bool :=
  existsb (fun e => (fst e =? i) && snd e) entries.

Definition reported (i : nat) (es : list Event) : bool :=
  existsb (fun e => match e with
                    | Intersection entries => reports i entries
                    | _ => false
                    end) es.

(** How often [img.src] of thumbnail [i] has been assigned. *)
Definition load_count (i : nat) (g : Gallery) : nat :=
  length (List.filter (fun p => fst p =? i) (loads g)).

(** The deferred source [renderGallery] gives thumbnail [i]. *)
Definition deferred_src (i : nat) : string :=
  image_url (THUMB_FOLDER cfg) i.

(** Thumbnail [i] of gallery [g] is either still waiting (observed,
    deferred source in place, [src] never assigned) or loaded
    ([src] assigned once from the deferred source, which is removed,
    and the image unobserved). *)
Definition thumb_phase (i : nat) (is_loaded : bool) (g : Gallery) : Prop :=
  exists th, thumbs g !! i = Some th /\
    if is_loaded
    then load_count i g = 1 /\ th_src th = Some (deferred_src i)
         /\ th_data_src th = None /\ th_observed th = false
    else load_count i g = 0 /\ th_src th = None
         /\ th_data_src th = Some (deferred_src i) /\ th_observed th = true.

End Controller.

(** The site without images. *)
Definition no_images : Config := {|
  FOLDER := FOLDER site;
  THUMB_FOLDER := THUMB_FOLDER site;
  BASENAME := BASENAME site;
  EXT := EXT site;
  COUNT := 0;
  AUTOPLAY_MS := AUTOPLAY_MS site
|}.

(** A page on which every element exists, with the lightbox hidden by
    the markup. *)
Definition full_page : Page := {|
  slidesTrack := true; statusEl := true; galleryEl := true;
  lightbox := true; lightboxImg := true; lightboxCaption := true;
  lightboxClose := true; lightboxBackdrop := true
|}.

Definition plain_markup : Markup := {|
  m_track := [];
  m_status := EmptyString;
  m_lbox := {| lb_hidden := true; lb_aria_hidden := Some "true";
               lb_src := None; lb_caption := EmptyString |};
  m_last_id := 0
|}.

(** The site after the script has run on such a page. *)
Definition started : State :=
  load site full_page plain_markup.

(** A visitor opens the first thumbnail, switches to another tab and
    comes back; the lightbox has not been closed. *)
Definition back_on_tab : State :=
  run site full_page started
    [ThumbClick 0; VisibilityChange true; VisibilityChange false].

(** A visitor opens the first thumbnail, closes the lightbox, switches
    to another tab and comes back. *)
Definition after_visit : State :=
  run site full_page started
    [ThumbClick 0; CloseClick; VisibilityChange true; VisibilityChange false].

(** A visitor opens the first thumbnail and switches to another tab. *)
Definition lightbox_on_hidden_tab : State :=
  handle site full_page (handle site full_page started (ThumbClick 0))
    (VisibilityChange true).

(** The observer reports the first thumbnail three times, the second
    never as intersecting. *)
Definition scrolling : list Event :=
  [Intersection [(0, true); (1, false); (0, true)]; Tick 1; Intersection [(0, true)]].

(** An open lightbox keeps autoplay halted, whatever else happens. *)
Definition open_lightbox_halts_autoplay (cfg : Config) (pg : Page) : Prop :=
  forall s : State, viewing cfg pg s -> stopped s.

End Portfolio.

(** ** Order form validator and submitter *)

Module OrderForm.

(** *** Document and form *)

(** An element of the form: the attributes and properties the script
    reads, and whether its class list contains ["field-error"].  An
    absent attribute (or a property the element does not have) is
    [None].  [default_value] and [default_checked] are what
    [form.reset()] restores. *)
Record Control := {
  id_attr : option string;
  name_attr : option string;
  placeholder_attr : option string;
  required : bool;
  type : option string;
  checked : bool;
  value : option string;
  default_checked : bool;
  default_value : option string;
  field_error : bool
}.

(** An element as the label lookup sees it: its [for] attribute, if it
    has one, and its [textContent]. *)
Record Label := {
  for_attr : option string;
  label_textContent : string
}.

(** The submit button; [dataset_text] is [btn.dataset._text]. *)
Record Button := {
  disabled : bool;
  textContent : string;
  dataset_text : option string
}.

(** The error panel: [style.display] and [innerHTML]. *)
Record ErrorBox := {
  display : string;
  innerHTML : string
}.

(** An [.item-row] element: the [value] of its first
    [input[name="qty[]"]], [textarea[name="desc[]"]],
    [input[name="material[]"]] and [textarea[name="notes[]"]];
    [None] when the row has no such field. *)
Record Row := {
  qty_field : option string;
  desc_field : option string;
  material_field : option string;
  notes_field : option string
}.

Record Item := {
  qty : string;
  desc : string;
  material : string;
  notes : string
}.

(** A form: [item_rows] are its [.item-row] descendants, [entries] the
    entry list [new FormData(form)] yields when the attempt starts,
    [reset_is_function] whether [typeof form.reset === "function"]
    (a control named [reset] hides the method). *)
Record Form := {
  form_id : string;
  controls : list Control;
  item_rows : list Row;
  submit_button : option Button;
  entries : list (string * string);
  reset_is_function : bool
}.

(** The rest of the document: every [label] element in document order;
    for an element id the [.item-row] elements below it; and what
    [document.querySelector] answers for a selector text that the
    embedding does not interpret itself (see [label_for]): [None] when
    the call throws, otherwise the first element matched, if any.  The
    answer is given per selector text. *)
Record Document := {
  labels : list Label;
  containers : gmap string (list Row);
  other_query : string -> option (option Label)
}.

Record Request := {
  req_url : string;
  req_method : string;
  req_body : list (string * string)
}.

(** Everything the script can change: the form, the error panel (absent
    when [document.getElementById] finds none), the requests sent with
    [fetch], the values assigned to [window.location.href], and the
    [scrollIntoView] calls on the error panel (with their [behavior] and
    [block] options). *)
Record World := {
  form : Form;
  errorBox : option ErrorBox;
  doc : Document;
  requests : list Request;
  navigations : list string;
  scrolls : list (string * string)
}.

(** *** Values that arrive from the network *)

(** The value of a property read from the response body. *)
Inductive Prim :=
| PUndefined
| PNull
| PBool (b : bool)
| PNum (x : Js.Number)
| PStr (s : string).

(** A parsed response body.  The fields of an object hold primitive
    values.  [JArray] stands for any array: like booleans, numbers and
    strings, an array has none of the properties the script reads. *)
Inductive Json :=
| JNull
| JBool (b : bool)
| JNum (x : Js.Number)
| JStr (s : string)
| JArray
| JObject (fields : gmap string Prim).

(** [res.json()] resolves with the parsed body or rejects. *)
Inductive Parsed :=
| Rejects
| Resolves (data : Json).

Record Response := {
  status : nat;
  json : Parsed
}.

(** A thrown value, seen through [err?.message]: [PUndefined] when the
    value is nullish or has no message. *)
Record Thrown := {
  message : Prim
}.

Inductive FetchOutcome :=
| FetchRejects (err : Thrown)
| FetchResolves (res : Response).

Inductive Completion (A : Type) :=
| Normal (a : A)
| Throw (e : Thrown).
Arguments Normal {A} a.
Arguments Throw {A} e.

Definition bind {A B : Type} (c : Completion A) (k : A -> Completion B) : Completion B :=
  match c with
  | Normal a => k a
  | Throw e => Throw e
  end.

Notation "'let*' x := c 'in' k" := (bind c (fun x => k))
  (at level 10, x name, c at level 100, k at level 200).

(** The messages the engine gives the errors it throws itself: the
    [TypeError] for reading property [p] of [null], and the [URIError]
    of [encodeURIComponent]. *)
Record Engine := {
  null_read_message : string -> string;
  uri_error_message : string
}.

(** [ToBoolean] *)
Definition truthy (p : Prim) : bool :=
  match p with
  | PUndefined => false
  | PNull => false
  | PBool b => b
  | PNum Js.Zero => false
  | PNum _ => true
  | PStr s => Js.truthy s
  end.

(** [ToString] *)
Definition to_string (p : Prim) : string :=
  match p with
  | PUndefined => "undefined"
  | PNull => "null"
  | PBool true => "true"
  | PBool false => "false"
  | PNum x => Js.number_to_string x
  | PStr s => s
  end.

(** [a || b] *)
Definition or_else (a b : Prim) : Prim :=
  if truthy a then a else b.

(** [res.ok]: the status is in the range 200-299. *)
Definition ok (res : Response) : bool :=
  Js.between 200 299 (status res).

(** *** Validation *)

(** The bytes that a quoted string of a selector does not carry
    unchanged: the closing quotation mark, the backslash, the line
    breaks LF, FF and CR, and NUL. *)
Definition selector_special (c : ascii) : bool :=
  bool_decide (nat_of_ascii c ∈ [0; 10; 12; 13; 34; 92]).

(** Does the selector [label[for="id"]] carry [id] unchanged?  Not when
    [id] holds one of the special bytes or a surrogate that is not half
    of a pair, which the style engine replaces. *)
Fixpoint selector_plain (id : string) : bool :=
  match id with
  | EmptyString => true
  | String c r =>
      negb (selector_special c)
      && negb (match r with
               | String d _ => Js.surrogate_lead c d
               | EmptyString => false
               end)
      && selector_plain r
  end.

Definition label_selector (id : string) : string :=
  "label[for=" +:+ String Js.quote (id +:+ String Js.quote "]").

(** [document.querySelector(`label[for="${id}"]`)]; [None] when the call
    throws.  A selector that carries [id] unchanged finds the first
    label element whose [for] attribute is [id]; what any other selector
    finds is up to the document. *)
Definition label_for (d : Document) (id : string) : option (option Label) :=
  if selector_plain id
  then Some (List.find (fun l => bool_decide (for_attr l = Some id)) (labels d))
  else other_query d (label_selector id).

(** [a || b] where both may be [null]. *)
Definition first_truthy (a b : option string) : option string :=
  if Js.truthy_opt a then a else b.

Definition attr_label (el : Control) : string :=
  Js.trim (Js.opt_or (first_truthy (name_attr el) (placeholder_attr el)) "Required field").

(** [humanLabel(el)]; [None] when the lookup of the label throws. *)
Definition humanLabel (d : Document) (el : Control) : option string :=
  match id_attr el with
  | Some id =>
      if Js.truthy id then
        match label_for d id with
        | None => None
        | Some (Some lbl) => Some (Js.strip_star (Js.trim (label_textContent lbl)))
        | Some None => Some (attr_label el)
        end
      else Some (attr_label el)
  | None => Some (attr_label el)
  end.

Definition is_checkbox (el : Control) : bool :=
  match type el with
  | Some t => String.eqb t "checkbox"
  | None => false
  end.

(** The [ok] computed for one required control. *)
Definition control_ok (el : Control) : bool :=
  if is_checkbox el then checked el
  else Js.truthy (Js.trim (Js.opt_or (value el) EmptyString)).

(** [el.classList.toggle("field-error", on)] *)
Definition toggle_field_error (on : bool) (el : Control) : Control :=
  {| id_attr := id_attr el; name_attr := name_attr el;
     placeholder_attr := placeholder_attr el; required := required el;
     type := type el; checked := checked el; value := value el;
     default_checked := default_checked el; default_value := default_value el;
     field_error := on |}.

(** The [required.forEach] loop: the controls after the loop and the
    array [missing], or [None] in its place when [humanLabel] throws;
    the controls behind the one at which it throws are not reached. *)
Fixpoint check_required (d : Document) (els : list Control) (missing : list string)
  : list Control * option (list string) :=
  match els with
  | [] => ([], Some missing)
  | el :: rest =>
      if required el then
        let ok := control_ok el in
        let el' := toggle_field_error (negb ok) el in
        if ok then
          let (rest', m) := check_required d rest missing in (el' :: rest', m)
        else
          match humanLabel d el with
          | None => (el' :: rest, None)
          | Some l =>
              let (rest', m) := check_required d rest (missing ++ [l]) in (el' :: rest', m)
          end
      else
        let (rest', m) := check_required d rest missing in
        (el :: rest', m)
  end.

(** The array [missing] just before [if (missing.length)]. *)
Definition collect_missing (w : World) : option (list string) :=
  match snd (check_required (doc w) (controls (form w)) []) with
  | Some m =>
      Some (if length (item_rows (form w)) =? 0 then m ++ ["At least 1 item line"] else m)
  | None => None
  end.

Definition error_html (missing : list string) : string :=
  "<strong>Please complete the required fields:</strong><ul>"
  +:+ Js.join EmptyString (map (fun m => "<li>" +:+ m +:+ "</li>") missing)
  +:+ "</ul>".

Definition with_controls (f : Form) (cs : list Control) : Form :=
  {| form_id := form_id f; controls := cs; item_rows := item_rows f;
     submit_button := submit_button f; entries := entries f;
     reset_is_function := reset_is_function f |}.

Definition with_button (f : Form) (b : option Button) : Form :=
  {| form_id := form_id f; controls := controls f; item_rows := item_rows f;
     submit_button := b; entries := entries f;
     reset_is_function := reset_is_function f |}.

Definition with_form (w : World) (f : Form) : World :=
  {| form := f; errorBox := errorBox w; doc := doc w; requests := requests w;
     navigations := navigations w; scrolls := scrolls w |}.

(** [validateForm(form, errorBox)]: the world it leaves and the value it
    returns, [None] when it throws: in [humanLabel], or at
    [errorBox.style] when there is no error panel. *)
Definition validateForm (w : World) : World * option bool :=
  let cs := fst (check_required (doc w) (controls (form w)) []) in
  let w1 := with_form w (with_controls (form w) cs) in
  match collect_missing w with
  | None => (w1, None)
  | Some missing =>
      match errorBox w with
      | None => (w1, None)
      | Some _ =>
          if negb (length missing =? 0) then
            ({| form := with_controls (form w) cs;
                errorBox := Some {| display := "block"; innerHTML := error_html missing |};
                doc := doc w;
                requests := requests w;
                navigations := navigations w;
                scrolls := scrolls w ++ [("smooth", "start")] |}, Some false)
          else
            ({| form := with_controls (form w) cs;
                errorBox := Some {| display := "none"; innerHTML := EmptyString |};
                doc := doc w;
                requests := requests w;
                navigations := navigations w;
                scrolls := scrolls w |}, Some true)
      end
  end.

(** *** Building the payload *)

Definition is_quick (f : Form) : bool :=
  String.eqb (form_id f) "quickOrderForm".

Definition itemsTbodyId (f : Form) : string :=
  if is_quick f then "q_itemsBody" else "l_itemsBody".

Definition order_type (f : Form) : string :=
  if is_quick f then "quick" else "large".

(** [document.querySelectorAll(`#${id} .item-row`)] *)
Definition rows_under (d : Document) (id : string) : list Row :=
  default [] (containers d !! id).

Definition read_row (r : Row) : Item :=
  {| qty := Js.opt_or (qty_field r) EmptyString;
     desc := Js.opt_or (desc_field r) EmptyString;
     material := Js.opt_or (material_field r) EmptyString;
     notes := Js.opt_or (notes_field r) EmptyString |}.

(** [it.qty || it.desc || it.material || it.notes], as a condition. *)
Definition filled (it : Item) : bool :=
  Js.truthy (Js.or_else (Js.or_else (Js.or_else (qty it) (desc it)) (material it)) (notes it)).

Definition items (w : World) : list Item :=
  List.filter filled (map read_row (rows_under (doc w) (itemsTbodyId (form w)))).

Definition json_member (k v : string) : string :=
  Js.json_string k +:+ ":" +:+ Js.json_string v.

Definition json_item (it : Item) : string :=
  "{" +:+ json_member "qty" (qty it) +:+ "," +:+ json_member "desc" (desc it)
  +:+ "," +:+ json_member "material" (material it)
  +:+ "," +:+ json_member "notes" (notes it) +:+ "}".

(** [JSON.stringify(items)] *)
Definition stringify (its : list Item) : string :=
  "[" +:+ Js.join "," (map json_item its) +:+ "]".

(** [fd.append(name, v)] *)
Definition fd_append (name v : string) (fd : list (string * string)) : list (string * string) :=
  fd ++ [(name, v)].

Definition fd_without (name : string) (fd : list (string * string)) : list (string * string) :=
  List.filter (fun e => negb (String.eqb (fst e) name)) fd.

(** [fd.set(name, v)]: the first entry called [name] takes the value and
    the later ones are removed; without one, the entry is appended. *)
Fixpoint fd_set (name v : string) (fd : list (string * string)) : list (string * string) :=
  match fd with
  | [] => [(name, v)]
  | e :: rest =>
      if String.eqb (fst e) name then (name, v) :: fd_without name rest
      else e :: fd_set name v rest
  end.

(** [fd.getAll(name)] *)
Definition fd_getAll (name : string) (fd : list (string * string)) : list string :=
  map snd (List.filter (fun e => String.eqb (fst e) name) fd).

Definition payload (w : World) : list (string * string) :=
  fd_set "items_json" (stringify (items w))
    (fd_append "order_type" (order_type (form w)) (entries (form w))).

(** *** Submission *)

(** The button while the request is in flight, and after [finally]. *)
Definition press (b : Button) : Button :=
  {| disabled := true; textContent := "Sending...";
     dataset_text := Some (textContent b) |}.

Definition release (b : Button) : Button :=
  {| disabled := false; textContent := Js.opt_or (dataset_text b) "Submit";
     dataset_text := dataset_text b |}.

Definition navigate (href : string) (w : World) : World :=
  {| form := form w; errorBox := errorBox w; doc := doc w; requests := requests w;
     navigations := navigations w ++ [href]; scrolls := scrolls w |}.

Definition send (r : Request) (w : World) : World :=
  {| form := form w; errorBox := errorBox w; doc := doc w;
     requests := requests w ++ [r];
     navigations := navigations w; scrolls := scrolls w |}.

Definition reset_control (el : Control) : Control :=
  {| id_attr := id_attr el; name_attr := name_attr el;
     placeholder_attr := placeholder_attr el; required := required el;
     type := type el; checked := default_checked el; value := default_value el;
     default_checked := default_checked el; default_value := default_value el;
     field_error := field_error el |}.

(** [form.reset()] *)
Definition reset (w : World) : World :=
  with_form w (with_controls (form w) (map reset_control (controls (form w)))).

Section Submit.

Variable eng : Engine.

(** [encodeURIComponent(p)] *)
Definition encode (p : Prim) : Completion string :=
  match Js.encodeURIComponent (to_string p) with
  | Some e => Normal e
  | None => Throw {| message := PStr (uri_error_message eng) |}
  end.

(** [`/order-status.html?ok=0&msg=${encodeURIComponent(msg)}`] *)
Definition failure_url (msg : Prim) : Completion string :=
  let* m := encode msg in
  Normal ("/order-status.html?ok=0&msg=" +:+ m).

(** [`/order-status.html?ok=1&order_id=${encodeURIComponent(orderId)}&job_id=${encodeURIComponent(jobId)}`] *)
Definition success_url (orderId jobId : Prim) : Completion string :=
  let* o := encode orderId in
  let* j := encode jobId in
  Normal ("/order-status.html?ok=1&order_id=" +:+ o +:+ "&job_id=" +:+ j).

(** [data.p] *)
Definition get (data : Json) (p : string) : Completion Prim :=
  match data with
  | JNull => Throw {| message := PStr (null_read_message eng p) |}
  | JObject fields => Normal (default PUndefined (fields !! p))
  | _ => Normal PUndefined
  end.

(** [await res.json().catch(() => ({}))] *)
Definition body (res : Response) : Json :=
  match json res with
  | Rejects => JObject ∅
  | Resolves data => data
  end.

(** [!res.ok || !data.ok] *)
Definition failed (res : Response) (data : Json) : Completion bool :=
  if negb (ok res) then Normal true
  else let* flag := get data "ok" in Normal (negb (truthy flag)).

(** [data.error || data.message || `Request failed (${res.status})`] *)
Definition failure_message (res : Response) (data : Json) : Completion Prim :=
  let* e := get data "error" in
  let* em := (if truthy e then Normal e else get data "message") in
  Normal (or_else em (PStr ("Request failed (" +:+ Js.string_of_nat (status res) +:+ ")"))).

(** The statements of the [try] block after [await fetch(...)]: the
    world they leave, and the error if one of them throws. *)
Definition on_response (res : Response) (w : World) : World * option Thrown :=
  let data := body res in
  match failed res data with
  | Throw e => (w, Some e)
  | Normal true =>
      match (let* msg := failure_message res data in failure_url msg) with
      | Throw e => (w, Some e)
      | Normal href => (navigate href w, None)
      end
  | Normal false =>
      let w1 := if reset_is_function (form w) then reset w else w in
      match (let* o := get data "order_id" in
             let* j := get data "job_id" in
             success_url (or_else o (PStr EmptyString)) (or_else j (PStr EmptyString))) with
      | Throw e => (w1, Some e)
      | Normal href => (navigate href w1, None)
      end
  end.

(** The [catch] block; when [encodeURIComponent] throws in it, nothing
    is assigned. *)
Definition on_error (err : Thrown) (w : World) : World :=
  match failure_url (or_else (message err) (PStr "Network error")) with
  | Normal href => navigate href w
  | Throw _ => w
  end.

(** The [finally] block. *)
Definition finalize (w : World) : World :=
  with_form w (with_button (form w) (option_map release (submit_button (form w)))).

(** [submitOrder] up to [await fetch(...)]: the world with the request
    under way, and whether a request was sent at all.  None is sent when
    [validateForm] returns [false] or throws. *)
Definition submit_start (w : World) : World * bool :=
  let (w1, valid) := validateForm w in
  match valid with
  | Some true =>
      let w2 := with_form w1 (with_button (form w1) (option_map press (submit_button (form w1)))) in
      (send {| req_url := "/api/orders"; req_method := "POST"; req_body := payload w2 |} w2, true)
  | _ => (w1, false)
  end.

(** [submitOrder] from the moment [fetch] settles. *)
Definition submit_finish (o : FetchOutcome) (w : World) : World :=
  let (w1, thrown) := match o with
                      | FetchRejects err => (w, Some err)
                      | FetchResolves res => on_response res w
                      end in
  let w2 := match thrown with
            | Some err => on_error err w1
            | None => w1
            end in
  finalize w2.

(** A whole submission attempt in which [fetch] settles with [o]. *)
Definition submitOrder (o : FetchOutcome) (w : World) : World :=
  let (w1, sent) := submit_start w in
  if sent then submit_finish o w1 else w1.

End Submit.

(** *** Notions used to state the properties *)

(** A required control that validation rejects. *)
Definition rejected (el : Control) : bool :=
  required el && negb (control_ok el).

(** What validation does to one control. *)
Definition marked (el : Control) : Control :=
  if required el then toggle_field_error (negb (control_ok el)) el else el.

(** [data.p] for a body that is not [null]. *)
Definition field (data : Json) (p : string) : Prim :=
  match data with
  | JObject fields => default PUndefined (fields !! p)
  | _ => PUndefined
  end.




(** Two controls that differ at most in the error marker. *)
Definition same_but_marker (a b : Control) : Prop :=
  toggle_field_error false a = toggle_field_error false b.

(** Two worlds that differ at most in the error markers of the controls
    and in the error panel. *)
Definition same_but_markers_and_panel (w w' : World) : Prop :=
  Forall2 same_but_marker (controls (form w)) (controls (form w'))
  /\ with_controls (form w) [] = with_controls (form w') []
  /\ doc w = doc w'
  /\ requests w = requests w'
  /\ navigations w = navigations w'
  /\ scrolls w = scrolls w'.

(** *** Sample documents *)

(** The messages of V8. *)
Definition v8 : Engine :=
  {| null_read_message := fun p => "Cannot read properties of null (reading '" +:+ p +:+ "')";
     uri_error_message := "URI malformed" |}.

Definition text_input (id name : option string) (v : string) : Control :=
  {| id_attr := id; name_attr := name; placeholder_attr := None;
     required := true; type := Some "text"; checked := false;
     value := Some v; default_checked := false; default_value := Some EmptyString;
     field_error := false |}.

Definition send_button (text : string) : Button :=
  {| disabled := false; textContent := text; dataset_text := None |}.

Definition row (q d m n : string) : Row :=
  {| qty_field := Some q; desc_field := Some d;
     material_field := Some m; notes_field := Some n |}.

Definition blank_row : Row :=
  row EmptyString EmptyString EmptyString EmptyString.

(** A document in which no other selector matches anything. *)
Definition sample_doc : Document :=
  {| labels := [ {| for_attr := Some "cust"; label_textContent := "Name*" |} ];
     containers :=
       {[ "q_itemsBody" := [blank_row; row "2" EmptyString EmptyString EmptyString] ]};
     other_query := fun _ => Some None |}.

Definition world_of (f : Form) : World :=
  {| form := f;
     errorBox := Some {| display := EmptyString; innerHTML := EmptyString |};
     doc := sample_doc; requests := []; navigations := []; scrolls := [] |}.

(** A required field that is empty; its label reads [Name*]. *)
Definition customer_field : Control :=
  text_input (Some "cust") (Some "customer") EmptyString.

(** A quick-order form with three required fields, one of them empty,
    and no item row. *)
Definition incomplete_form : Form :=
  {| form_id := "quickOrderForm";
     controls := [ customer_field;
                   text_input None (Some "phone") "555 0100";
                   text_input None (Some "email") "a@b.example" ];
     item_rows := [];
     submit_button := Some (send_button "Send order");
     entries := [("customer", EmptyString); ("phone", "555 0100"); ("email", "a@b.example")];
     reset_is_function := true |}.

(** A valid quick-order form with two item rows, one of them empty. *)
Definition complete_form (btn : option Button) (resettable : bool) : Form :=
  {| form_id := "quickOrderForm";
     controls := [ text_input (Some "cust") (Some "customer") "Ada" ];
     item_rows := [blank_row; row "2" EmptyString EmptyString EmptyString];
     submit_button := btn;
     entries := [("customer", "Ada"); ("qty[]", EmptyString); ("desc[]", EmptyString);
                 ("material[]", EmptyString); ("notes[]", EmptyString); ("qty[]", "2");
                 ("desc[]", EmptyString); ("material[]", EmptyString); ("notes[]", EmptyString)];
     reset_is_function := resettable |}.

Definition incomplete : World := world_of incomplete_form.

Definition complete : World :=
  world_of (complete_form (Some (send_button "Send order")) true).

(** The same form on a page that has no error panel. *)
Definition complete_without_panel : World :=
  {| form := form complete; errorBox := None; doc := doc complete;
     requests := []; navigations := []; scrolls := [] |}.



Definition accepted : Response :=
  {| status := 200;
     json := Resolves (JObject {[ "ok" := PBool true; "order_id" := PStr "A1";
                                  "job_id" := PStr "J9" ]}) |}.

Definition out_of_stock : Response :=
  {| status := 200;
     json := Resolves (JObject {[ "ok" := PBool false; "error" := PStr "Out of stock" ]}) |}.


Definition unparsable : Response :=
  {| status := 200; json := Rejects |}.

End OrderForm.

(** ** The earliest variant of the slideshow controller

    The first version of the script has no thumbnail folder and no
    [null] guards: where the later versions return early, it throws a
    [TypeError], which ends the handler, or the whole script when it
    happens while the script starts. *)

Module PortfolioV1.

Import Portfolio.

(** The outcome of a handler: the state when it ran to its end, or the
    state it leaves behind when it throws. *)
Inductive Run (A : Type) :=
| Done (a : A)
| Threw (a : A).
Arguments Done {A} a.
Arguments Threw {A} a.

Definition state_of {A : Type} (r : Run A) : A :=
  match r with
  | Done a => a
  | Threw a => a
  end.

Section Controller.

Variable cfg : Config.
Variable pg : Page.

Definition images : list string :=
  fullImages cfg.

Definition updateStatus (sh : Slideshow) : Run Slideshow :=
  if negb (statusEl pg) then Threw sh
  else Done {| idx := idx sh; track := track sh;
               status := if length images =? 0 then EmptyString
                         else ordinal (idx sh) +:+ " / " +:+ Js.string_of_nat (length images) |}.

Definition renderSlide (sh : Slideshow) : Run Slideshow :=
  if negb (slidesTrack pg) then Threw sh
  else updateStatus {| idx := idx sh; track := [slide_of cfg (idx sh)]; status := status sh |}.

(** The interval callback. *)
Definition tick (sh : Slideshow) : Run Slideshow :=
  renderSlide {| idx := advance cfg (idx sh); track := track sh; status := status sh |}.

Definition openLightbox (url label : string) (s : State) : Run State :=
  if negb (lightboxImg pg) then Threw s
  else
    let l1 := {| lb_hidden := lb_hidden (lbox s); lb_aria_hidden := lb_aria_hidden (lbox s);
                 lb_src := Some url; lb_caption := lb_caption (lbox s) |} in
    if negb (lightboxCaption pg) then Threw (with_lbox s l1)
    else
      let l2 := {| lb_hidden := lb_hidden (lbox s); lb_aria_hidden := lb_aria_hidden (lbox s);
                   lb_src := Some url; lb_caption := Js.or_else label EmptyString |} in
      if negb (lightbox pg) then Threw (with_lbox s l2)
      else
        let l3 := {| lb_hidden := false; lb_aria_hidden := Some "false";
                     lb_src := Some url; lb_caption := Js.or_else label EmptyString |} in
        Done (with_timer (with_lbox s l3) (stopAutoplay (timer s))).

Definition closeLightbox (s : State) : Run State :=
  if negb (lightbox pg) then Threw s
  else
    let l1 := {| lb_hidden := true; lb_aria_hidden := Some "true";
                 lb_src := lb_src (lbox s); lb_caption := lb_caption (lbox s) |} in
    if negb (lightboxImg pg) then Threw (with_lbox s l1)
    else
      let l2 := {| lb_hidden := true; lb_aria_hidden := Some "true";
                   lb_src := None; lb_caption := lb_caption (lbox s) |} in
      Done (with_timer (with_lbox s l2) (startAutoplay (timer s))).

(** The button and image built for slide [i]; the deferred source is
    the slide itself. *)
Definition thumb_of (i : nat) (url : string) : Thumb := {|
  btn_type := "button";
  btn_class := "gallery-thumb";
  btn_aria_label := "Open image " +:+ Js.string_of_nat (i + 1);
  th_alt := "Portfolio thumbnail " +:+ Js.string_of_nat (i + 1);
  th_loading := "lazy";
  th_decoding := "async";
  th_data_src := Some url;
  th_src := None;
  th_observed := true;
  th_url := url;
  th_label := "Image " +:+ Js.string_of_nat (i + 1) +:+ " / "
              +:+ Js.string_of_nat (length images)
|}.

Definition renderGallery (g : Gallery) : Run Gallery :=
  if negb (galleryEl pg) then Threw g
  else Done {| thumbs := imap thumb_of images;
               rootMargin := Some "350px 0px";
               loads := loads g |}.

(** The listeners the script gets to register: the one on the close
    button comes first, the one on the backdrop second, those on the
    document after both. *)
Definition close_listener : bool :=
  lightboxClose pg.

Definition later_listeners : bool :=
  lightboxClose pg && lightboxBackdrop pg.

Definition enabled (s : State) (e : Event) : bool :=
  match e with
  | Tick id => bool_decide (id ∈ active (timer s))
  | ThumbClick i => bool_decide (is_Some (thumbs (gal s) !! i))
  | CloseClick => lightboxClose pg
  | BackdropClick => lightboxBackdrop pg
  | KeyDown _ => true
  | VisibilityChange _ => true
  | Intersection _ => bool_decide (is_Some (rootMargin (gal s)))
  end.

Definition handle (s : State) (e : Event) : State :=
  match e with
  | Tick _ => with_show s (state_of (tick (show s)))
  | ThumbClick i =>
      match thumbs (gal s) !! i with
      | Some th => state_of (openLightbox (th_url th) (th_label th) s)
      | None => s
      end
  | CloseClick => if close_listener then state_of (closeLightbox s) else s
  | BackdropClick => if later_listeners then state_of (closeLightbox s) else s
  | KeyDown key =>
      if later_listeners && String.eqb key "Escape" then
        if negb (lightbox pg) then s
        else if negb (lb_hidden (lbox s)) then state_of (closeLightbox s) else s
      else s
  | VisibilityChange hidden =>
      if later_listeners
      then with_timer s (if hidden then stopAutoplay (timer s) else startAutoplay (timer s))
      else s
  | Intersection entries => with_gal s (on_intersection entries (gal s))
  end.

(** The document before the script has done anything. *)
Definition untouched (m : Markup) : State :=
  {| show := {| idx := Fin 0; track := m_track m; status := m_status m |};
     timer := {| autoplay := None; active := []; last_id := m_last_id m |};
     lbox := m_lbox m;
     gal := {| thumbs := []; rootMargin := None; loads := [] |} |}.

Definition load (m : Markup) : State :=
  let s0 := untouched m in
  if negb later_listeners then s0
  else if length images =? 0 then
    if statusEl pg
    then with_show s0 {| idx := Fin 0; track := m_track m; status := "No images found." |}
    else s0
  else
    match renderSlide (show s0) with
    | Threw sh => with_show s0 sh
    | Done sh =>
        let s1 := with_show s0 sh in
        match renderGallery (gal s1) with
        | Threw g => with_gal s1 g
        | Done g =>
            let s2 := with_gal s1 g in
            with_timer s2 (startAutoplay (timer s2))
        end
    end.

Inductive reachable : State -> Prop :=
| reachable_load (m : Markup) : reachable (load m)
| reachable_step (s : State) (e : Event) :
    reachable s -> enabled s e = true -> reachable (handle s e).

Definition run (s : State) (es : list Event) : State :=
  fold_left handle es s.

(** The elements without which the two variants differ. *)
Definition mounts_present : bool :=
  slidesTrack pg && statusEl pg && galleryEl pg
  && lightbox pg && lightboxClose pg && lightboxBackdrop pg.

End Controller.

(** A page without the close button of the lightbox. *)
Definition page_without_close : Page := {|
  slidesTrack := true; statusEl := true; galleryEl := true;
  lightbox := true; lightboxImg := true; lightboxCaption := true;
  lightboxClose := false; lightboxBackdrop := true
|}.

(** The configuration of the earliest variant: thumbnails come from the
    slides folder. *)
Definition site_v1 : Config := {|
  FOLDER := FOLDER site;
  THUMB_FOLDER := FOLDER site;
  BASENAME := BASENAME site;
  EXT := EXT site;
  COUNT := COUNT site;
  AUTOPLAY_MS := AUTOPLAY_MS site
|}.

End PortfolioV1.

(** ** Further notions for the slideshow controller *)

Module PortfolioNotions.

Import Portfolio.

Definition is_tick (e : Event) : bool :=
  match e with
  | Tick _ => true
  | _ => false
  end.

Definition is_intersection (e : Event) : bool :=
  match e with
  | Intersection _ => true
  | _ => false
  end.

(** The hidden class and the [aria-hidden] attribute of the lightbox
    say the same. *)
Definition lockstep (l : Lightbox) : Prop :=
  lb_aria_hidden l = Some (if lb_hidden l then "true" else "false").

Section Notions.

Variable cfg : Config.
Variable pg : Page.

(** The slideshow is at image [i]: the index is [i] and, where the
    mount points exist, the slide and the status text are those of
    image [i]. *)
Definition shows (i : nat) (sh : Slideshow) : Prop :=
  idx sh = Fin i
  /\ (slidesTrack pg = true -> track sh = [slide_of cfg (Fin i)])
  /\ (slidesTrack pg = true -> statusEl pg = true ->
      status sh = Js.string_of_nat (i + 1) +:+ " / " +:+ Js.string_of_nat (COUNT cfg)).

(** Button [i] of the gallery is the one built for image [i]. *)
Definition thumb_for (i : nat) (th : Thumb) : Prop :=
  th_url th = image_url cfg (FOLDER cfg) i
  /\ th_label th = "Image " +:+ Js.string_of_nat (i + 1) +:+ " / "
                   +:+ Js.string_of_nat (COUNT cfg)
  /\ btn_aria_label th = "Open image " +:+ Js.string_of_nat (i + 1)
  /\ th_alt th = "Portfolio thumbnail " +:+ Js.string_of_nat (i + 1)
  /\ btn_type th = "button" /\ th_loading th = "lazy" /\ th_decoding th = "async".

(** The gallery has one button per image, in order. *)
Definition gallery_built (g : Gallery) : Prop :=
  length (thumbs g) = COUNT cfg
  /\ forall i th, thumbs g !! i = Some th -> thumb_for i th.

(** Every logged load belongs to a thumbnail that now holds the loaded
    URL and no deferred source, and no thumbnail is logged twice. *)
Definition loads_ok (g : Gallery) : Prop :=
  NoDup (map fst (loads g))
  /\ forall i u, In (i, u) (loads g) ->
       exists th, thumbs g !! i = Some th /\ th_data_src th = None /\ th_src th = Some u.

End Notions.

(** Pages from which the lightbox, or only its image element, is
    missing. *)
Definition page_without_lightbox : Page := {|
  slidesTrack := true; statusEl := true; galleryEl := true;
  lightbox := false; lightboxImg := true; lightboxCaption := true;
  lightboxClose := true; lightboxBackdrop := true
|}.

Definition page_without_lightboxImg : Page := {|
  slidesTrack := true; statusEl := true; galleryEl := true;
  lightbox := true; lightboxImg := false; lightboxCaption := true;
  lightboxClose := true; lightboxBackdrop := true
|}.

(** A visitor opens the fifth thumbnail and scrolls the gallery. *)
Definition browsing : list Event :=
  [ThumbClick 4; Intersection [(0, true); (1, true)]; KeyDown "Escape";
   VisibilityChange true; VisibilityChange false].

End PortfolioNotions.

(** ** Further notions for the order form *)

Module OrderFormNotions.

Import OrderForm.

(** ASCII white space: TAB, LF, VT, FF, CR and the space. *)
Definition ascii_space (c : ascii) : bool :=
  bool_decide (nat_of_ascii c ∈ [9; 10; 11; 12; 13; 32]).

(** A printable ASCII character other than the space. *)
Definition visible (c : ascii) : bool :=
  Js.between 33 126 (nat_of_ascii c).

Definition all_chars (p : ascii -> bool) (s : string) : bool :=
  forallb p (list_ascii_of_string s).

Definition some_char (p : ascii -> bool) (s : string) : bool :=
  existsb p (list_ascii_of_string s).

(** How often [c] occurs in [s]. *)
Definition count_char (c : ascii) (s : string) : nat :=
  length (List.filter (Ascii.eqb c) (list_ascii_of_string s)).

(** Characters that cannot end or split a query parameter: the
    unreserved ones and the percent sign. *)
Definition url_safe (c : ascii) : bool :=
  Js.unreserved c || Ascii.eqb c "%".

(** No entry of the table is empty or holds a visible character. *)
Definition clean (tbl : list string) : bool :=
  forallb (fun p => Js.truthy p && all_chars (fun c => negb (visible c)) p) tbl.

(** The first [n] characters of [s] are not visible. *)
Fixpoint starts_clean (n : nat) (s : string) : bool :=
  match n, s with
  | 0, _ => true
  | S k, String c r => negb (visible c) && starts_clean k r
  | S _, EmptyString => true
  end.

(** A string that is a sequence of entries of [tbl]. *)
Inductive made_of (tbl : list string) : string -> Prop :=
| made_of_nil : made_of tbl EmptyString
| made_of_cons (p s : string) : In p tbl -> made_of tbl s -> made_of tbl (p +:+ s).

(** A string of white space and line terminators only. *)
Definition blank (s : string) : Prop :=
  made_of Js.white_space s.

(** No entry of the table is empty or the beginning of another one. *)
Definition prefix_free (tbl : list string) : bool :=
  forallb (fun p => Js.truthy p
                    && forallb (fun q => implb (String.prefix p q) (String.eqb p q)) tbl) tbl.

(** The judgement of a required control as the specification words it:
    a checkbox is valid when checked, any other control when its value
    is more than white space. *)
Definition judged_valid (el : Control) : Prop :=
  if decide (type el = Some "checkbox")
  then checked el = true
  else ~ blank (default EmptyString (value el)).

(** A control whose label lookup uses a selector that carries the id
    unchanged, or no selector at all. *)
Definition plain_id (el : Control) : bool :=
  match id_attr el with
  | Some id => selector_plain id
  | None => true
  end.

(** What the script leaves of a loop over the required controls: the
    labels of the rejected ones, or [None] when a lookup throws, and the
    controls, marked up to the one whose lookup throws. *)
Fixpoint rejected_labels (d : Document) (els : list Control) : option (list string) :=
  match els with
  | [] => Some []
  | el :: rest =>
      if rejected el then
        match humanLabel d el with
        | Some l => option_map (cons l) (rejected_labels d rest)
        | None => None
        end
      else rejected_labels d rest
  end.

Fixpoint marked_until_throw (d : Document) (els : list Control) : list Control :=
  match els with
  | [] => []
  | el :: rest =>
      if rejected el then
        match humanLabel d el with
        | Some _ => marked el :: marked_until_throw d rest
        | None => marked el :: rest
        end
      else marked el :: marked_until_throw d rest
  end.



(** [s] between quotation marks. *)
Definition quoted (s : string) : string :=
  String Js.quote (s +:+ String Js.quote EmptyString).



(** A response that the server marks as accepted: successful, with a
    body that is not [null] and has a truthy [ok]. *)
Definition accepts (o : FetchOutcome) : bool :=
  match o with
  | FetchResolves res =>
      ok res
      && match body res with JNull => false | _ => true end
      && truthy (field (body res) "ok")
  | FetchRejects _ => false
  end.

(** The errors the engine throws in the script: the [URIError] of
    [encodeURIComponent] and the [TypeError] of a read on [null]. *)
Definition uri_error (eng : Engine) : Thrown :=
  {| message := PStr (uri_error_message eng) |}.

Definition engine_error (eng : Engine) (err : Thrown) : Prop :=
  err = uri_error eng
  \/ exists p, err = {| message := PStr (null_read_message eng p) |}.

(** The request of an attempt. *)
Definition order_request (w : World) : Request :=
  {| req_url := "/api/orders"; req_method := "POST"; req_body := payload w |}.


(** A valid quick-order form whose items container holds blank rows
    only. *)
Definition blank_order : World :=
  {| form := complete_form (Some (send_button "Send order")) true;
     errorBox := Some {| display := EmptyString; innerHTML := EmptyString |};
     doc := {| labels := []; containers := {[ "q_itemsBody" := [blank_row; blank_row] ]};
               other_query := fun _ => Some None |};
     requests := []; navigations := []; scrolls := [] |}.

(** A high surrogate on its own, U+D83D. *)
Definition lone_surrogate : string :=
  Js.bytes [237; 160; 189].

(** An accepted order whose identifier cannot be encoded. *)
Definition accepted_unencodable : Response :=
  {| status := 200;
     json := Resolves (JObject {[ "ok" := PBool true; "order_id" := PStr lone_surrogate ]}) |}.

(** Ten to the 21, which JavaScript prints in exponent form. *)
Definition sextillion : Js.Number :=
  Js.Finite false 1 22.

End OrderFormNotions.

(** ** Properties of the JavaScript primitives *)

Module JsFacts.

Import OrderFormNotions.

Lemma truthy_true_iff (s : string) : Js.truthy s = true <-> s <> EmptyString.
Proof. destruct s; simpl; split; congruence. Qed.


Lemma opt_or_empty (o : option string) :
  Js.opt_or o EmptyString = default EmptyString o.
Proof. destruct o as [[|c r]|]; reflexivity. Qed.

(** *** Strings as lists of bytes *)

Lemma chars_append (a b : string) :
  list_ascii_of_string (a +:+ b) = list_ascii_of_string a ++ list_ascii_of_string b.
Proof. induction a as [|c a IH]; simpl; [reflexivity | now rewrite IH]. Qed.

Lemma chars_inj (a b : string) :
  list_ascii_of_string a = list_ascii_of_string b -> a = b.
Proof.
  intros H. apply (f_equal string_of_list_ascii) in H.
  now rewrite !string_of_list_ascii_of_string in H.
Qed.

Lemma append_nil_r (a : string) : a +:+ EmptyString = a.
Proof. apply chars_inj. rewrite chars_append. apply app_nil_r. Qed.

Lemma append_assoc (a b c : string) : (a +:+ b) +:+ c = a +:+ (b +:+ c).
Proof. apply chars_inj. rewrite !chars_append. now rewrite app_assoc. Qed.

Lemma length_append (a b : string) :
  String.length (a +:+ b) = String.length a + String.length b.
Proof. induction a as [|c a IH]; simpl; [reflexivity | now rewrite IH]. Qed.

Lemma rev_string_append (a b : string) :
  Js.rev_string (a +:+ b) = Js.rev_string b +:+ Js.rev_string a.
Proof.
  apply chars_inj. unfold Js.rev_string.
  rewrite chars_append, !list_ascii_of_string_of_list_ascii, chars_append.
  rewrite !list_ascii_of_string_of_list_ascii. apply rev_app_distr.
Qed.

Lemma rev_string_involutive (a : string) : Js.rev_string (Js.rev_string a) = a.
Proof.
  apply chars_inj. unfold Js.rev_string.
  rewrite !list_ascii_of_string_of_list_ascii. apply rev_involutive.
Qed.

Lemma rev_string_empty (a : string) : Js.rev_string a = EmptyString -> a = EmptyString.
Proof.
  intros H. apply (f_equal Js.rev_string) in H.
  now rewrite rev_string_involutive in H.
Qed.

Lemma prefix_split (p s : string) :
  String.prefix p s = true -> exists r, s = p +:+ r.
Proof.
  revert s. induction p as [|a p IH]; intros s H; [now exists s|].
  destruct s as [|b s]; [discriminate H|]. simpl in H.
  destruct (ascii_dec a b) as [<-|]; [|discriminate H].
  destruct (IH s H) as [r ->]. now exists r.
Qed.

Lemma prefix_append (p r : string) : String.prefix p (p +:+ r) = true.
Proof.
  induction p as [|a p IH]; [now destruct r|]. simpl.
  destruct (ascii_dec a a); [exact IH | congruence].
Qed.

Lemma prefix_empty (p : string) : String.prefix p EmptyString = true -> p = EmptyString.
Proof. now destruct p. Qed.

(** Two beginnings of one string: one is a beginning of the other. *)
Lemma prefix_chain (p q s : string) :
  String.prefix p s = true -> String.prefix q s = true ->
  String.prefix p q = true \/ String.prefix q p = true.
Proof.
  revert q s. induction p as [|a p IH]; intros q s Hp Hq.
  - left. now destruct q.
  - destruct q as [|b q]; [now right|].
    destruct s as [|c s]; [discriminate Hp|]. simpl in *.
    destruct (ascii_dec a c) as [<-|]; [|discriminate Hp].
    destruct (ascii_dec b a) as [->|]; [|discriminate Hq].
    destruct (ascii_dec a a); [|congruence].
    exact (IH q s Hp Hq).
Qed.

(** *** Trimming *)

Lemma skip_all_step (tbl : list string) (c : ascii) (r : string) :
  Js.skip_all tbl 0 (String c r)
  = match Js.width tbl (String c r) with
    | 0 => String c r
    | S k => Js.skip_all tbl k r
    end.
Proof. reflexivity. Qed.

Lemma skip_all_nil (tbl : list string) : Js.skip_all tbl 0 EmptyString = EmptyString.
Proof. simpl. now destruct (Js.width tbl EmptyString). Qed.

Lemma skip_all_drop (tbl : list string) (a s : string) :
  Js.skip_all tbl (String.length a) (a +:+ s) = Js.skip_all tbl 0 s.
Proof. induction a as [|c a IH]; [reflexivity | exact IH]. Qed.

Lemma width_found (tbl : list string) (s : string) (k : nat) :
  Js.width tbl s = S k ->
  exists c p r, In (String c p) tbl /\ s = String c (p +:+ r) /\ k = String.length p.
Proof.
  unfold Js.width. destruct (List.find _ tbl) as [q|] eqn:Hf; [|discriminate].
  apply find_some in Hf as [Hin Hp]. intros Hk.
  destruct q as [|c p]; [discriminate Hk|]. injection Hk as <-.
  destruct (prefix_split _ _ Hp) as [r ->]. now exists c, p, r.
Qed.

Lemma width_empty (tbl : list string) : Js.width tbl EmptyString = 0.
Proof.
  unfold Js.width. destruct (List.find _ tbl) as [q|] eqn:Hf; [|reflexivity].
  apply find_some in Hf as [_ Hp]. now rewrite (prefix_empty _ Hp).
Qed.

Lemma prefix_free_spec (tbl : list string) :
  prefix_free tbl = true ->
  forall p, In p tbl ->
    p <> EmptyString /\ forall q, In q tbl -> String.prefix p q = true -> p = q.
Proof.
  unfold prefix_free. rewrite forallb_forall. intros H p Hp.
  specialize (H p Hp). apply andb_prop in H as [H1 H2]. split.
  - now apply truthy_true_iff.
  - rewrite forallb_forall in H2. intros q Hq Hpq. specialize (H2 q Hq).
    rewrite Hpq in H2. now apply String.eqb_eq.
Qed.

Lemma width_entry (tbl : list string) (p s : string) :
  prefix_free tbl = true -> In p tbl -> Js.width tbl (p +:+ s) = String.length p.
Proof.
  intros Hfree Hp. unfold Js.width.
  destruct (List.find _ tbl) as [q|] eqn:Hf.
  - apply find_some in Hf as [Hq Hpre].
    destruct (prefix_chain p q (p +:+ s) (prefix_append p s) Hpre) as [H | H].
    + now rewrite (proj2 (prefix_free_spec tbl Hfree p Hp) q Hq H).
    + now rewrite <- (proj2 (prefix_free_spec tbl Hfree q Hq) p Hp H).
  - apply (find_none _ _ Hf) in Hp. simpl in Hp. now rewrite prefix_append in Hp.
Qed.

(** A sequence of entries is skipped entirely. *)
Lemma skip_all_made_of (tbl : list string) (s : string) :
  prefix_free tbl = true -> made_of tbl s -> Js.skip_all tbl 0 s = EmptyString.
Proof.
  intros Hfree H. induction H as [|p s Hp Hs IH]; [apply skip_all_nil|].
  destruct p as [|c p]; [now destruct (proj1 (prefix_free_spec tbl Hfree _ Hp))|].
  change (String c p +:+ s) with (String c (p +:+ s)).
  rewrite skip_all_step. change (String c (p +:+ s)) with (String c p +:+ s).
  rewrite width_entry by assumption. simpl.
  now rewrite skip_all_drop.
Qed.

(** What is skipped entirely is a sequence of entries. *)
Lemma skip_all_empty (tbl : list string) (n : nat) :
  forall s, String.length s <= n -> Js.skip_all tbl 0 s = EmptyString -> made_of tbl s.
Proof.
  induction n as [|n IH]; intros s Hn H.
  - destruct s; [constructor | simpl in Hn; lia].
  - destruct s as [|c r]; [constructor|].
    rewrite skip_all_step in H.
    destruct (Js.width tbl (String c r)) as [|k] eqn:Hw; [discriminate H|].
    destruct (width_found _ _ _ Hw) as (c' & p & r' & Hin & Hs & ->).
    injection Hs as <- ->. rewrite skip_all_drop in H.
    change (String c (p +:+ r')) with (String c p +:+ r').
    constructor; [exact Hin|]. apply IH; [|exact H].
    simpl in Hn. rewrite length_append in Hn. lia.
Qed.

(** What is left after skipping begins with no entry. *)
Lemma width_skip_all (tbl : list string) (n : nat) :
  forall s, String.length s <= n -> Js.width tbl (Js.skip_all tbl 0 s) = 0.
Proof.
  induction n as [|n IH]; intros s Hn.
  - destruct s; [rewrite skip_all_nil; apply width_empty | simpl in Hn; lia].
  - destruct s as [|c r]; [rewrite skip_all_nil; apply width_empty|].
    rewrite skip_all_step.
    destruct (Js.width tbl (String c r)) as [|k] eqn:Hw; [exact Hw|].
    destruct (width_found _ _ _ Hw) as (c' & p & r' & Hin & Hs & ->).
    injection Hs as <- ->. rewrite skip_all_drop. apply IH.
    simpl in Hn. rewrite length_append in Hn. lia.
Qed.

Lemma made_of_snoc (tbl : list string) (s p : string) :
  made_of tbl s -> In p tbl -> made_of tbl (s +:+ p).
Proof.
  intros H Hp. induction H as [|q s Hq Hs IH].
  - pose proof (made_of_cons tbl p EmptyString Hp (made_of_nil tbl)) as H.
    now rewrite append_nil_r in H.
  - rewrite append_assoc. now constructor.
Qed.

Lemma made_of_rev (tbl : list string) (s : string) :
  made_of (map Js.rev_string tbl) s -> made_of tbl (Js.rev_string s).
Proof.
  intros H. induction H as [|q s Hq Hs IH]; [constructor|].
  rewrite rev_string_append. apply made_of_snoc; [exact IH|].
  apply in_map_iff in Hq as (p & <- & Hp). now rewrite rev_string_involutive.
Qed.

Lemma white_space_prefix_free : prefix_free Js.white_space = true.
Proof. vm_compute. reflexivity. Qed.

(** A string trims to nothing exactly when it is white space only. *)
Lemma trim_empty_iff (s : string) : Js.trim s = EmptyString <-> blank s.
Proof.
  unfold blank, Js.trim. split.
  - intros H. unfold Js.trimEnd in H. apply rev_string_empty in H.
    apply (skip_all_empty _ _ _ (le_n _)) in H. apply made_of_rev in H.
    rewrite rev_string_involutive in H.
    assert (Hw : Js.width Js.white_space (Js.trimStart s) = 0)
      by apply (width_skip_all _ _ _ (le_n _)).
    assert (He : Js.trimStart s = EmptyString).
    { destruct H as [|p t Hp Ht]; [reflexivity|].
      rewrite width_entry in Hw by (exact white_space_prefix_free || exact Hp).
      destruct p; [|discriminate Hw].
      now destruct (proj1 (prefix_free_spec _ white_space_prefix_free _ Hp)). }
    exact (skip_all_empty _ _ _ (le_n _) He).
  - intros H. unfold Js.trimStart.
    now rewrite (skip_all_made_of _ _ white_space_prefix_free H).
Qed.

(** *** Encoding *)








(** *** JSON string literals *)




(** *** Samples *)

(** [trim] removes white space at both ends only, ASCII or not
    (here a no-break space in front and a line separator behind). *)
Example trim_samples :
  Js.trim "  a b  " = "a b"
  /\ Js.trim (Js.bytes [194; 160; 9; 65; 32; 66; 10; 226; 128; 168]) = "A B"
  /\ Js.trim "   " = EmptyString
  /\ Js.trim EmptyString = EmptyString.
Proof. repeat split; vm_compute; reflexivity. Qed.

Example strip_star_samples :
  Js.strip_star "Name*" = "Name"
  /\ Js.strip_star "Name *" = "Name "
  /\ Js.strip_star "a*b" = "a*b"
  /\ Js.strip_star "**" = "*".
Proof. repeat split; vm_compute; reflexivity. Qed.

(** A surrogate on its own makes [encodeURIComponent] throw; a pair, the
    four bytes of U+1F600, is encoded like any other character. *)
Example encodeURIComponent_samples :
  Js.encodeURIComponent "Out of stock" = Some "Out%20of%20stock"
  /\ Js.encodeURIComponent "a&b=c/d?e#f" = Some "a%26b%3Dc%2Fd%3Fe%23f"
  /\ Js.encodeURIComponent "-_.!~*'()" = Some "-_.!~*'()"
  /\ Js.encodeURIComponent (Js.bytes [195; 169]) = Some "%C3%A9"
  /\ Js.encodeURIComponent (Js.bytes [240; 159; 152; 128]) = Some "%F0%9F%98%80"
  /\ Js.encodeURIComponent (Js.bytes [237; 159; 191]) = Some "%ED%9F%BF"
  /\ Js.encodeURIComponent ("A1" +:+ lone_surrogate) = None.
Proof. repeat split; vm_compute; reflexivity. Qed.

(** Numbers print as [Number::toString] prints them. *)
Example number_to_string_samples :
  Js.number_to_string (Js.Finite false 5 1) = "5"
  /\ Js.number_to_string (Js.Finite true 1204 4) = "-1204"
  /\ Js.number_to_string (Js.Finite false 120 3) = "120"
  /\ Js.number_to_string (Js.Finite false 15 1) = "1.5"
  /\ Js.number_to_string (Js.Finite false 1 (-5)) = "0.000001"
  /\ Js.number_to_string (Js.Finite false 1 (-6)) = "1e-7"
  /\ Js.number_to_string (Js.Finite false 1 21) = "100000000000000000000"
  /\ Js.number_to_string sextillion = "1e+21"
  /\ Js.number_to_string (Js.Finite false 12345 23) = "1.2345e+22"
  /\ Js.number_to_string (Js.Infinite true) = "-Infinity"
  /\ Js.number_to_string Js.Zero = "0".
Proof. repeat split; vm_compute; reflexivity. Qed.

(** A lone surrogate in a JSON string literal is written as an escape. *)
Example json_string_samples :
  Js.json_string ("a" +:+ lone_surrogate +:+ "b")
  = quoted ("a" +:+ String Js.backslash "ud83d" +:+ "b")
  /\ Js.json_string (String Js.quote "x") = quoted (String Js.backslash (String Js.quote "x")).
Proof. repeat split; vm_compute; reflexivity. Qed.

End JsFacts.

(** ** Properties of the slideshow, gallery and lightbox controller *)

Module PortfolioFacts.

Import Portfolio.

Section Facts.

Variable cfg : Config.
Variable pg : Page.

Lemma length_fullImages : length (fullImages cfg) = COUNT cfg.
Proof. unfold fullImages. now rewrite length_map, length_seq. Qed.

Lemma lookup_image (dir : string) (i : nat) :
  i < COUNT cfg ->
  map (image_url cfg dir) (seq 0 (COUNT cfg)) !! i = Some (image_url cfg dir i).
Proof.
  intros Hi.
  change (map (image_url cfg dir) (seq 0 (COUNT cfg)))
    with (image_url cfg dir <$> seq 0 (COUNT cfg)).
  rewrite list_lookup_fmap, lookup_seq_lt by exact Hi.
  reflexivity.
Qed.

Lemma image_url_truthy (dir : string) (i : nat) :
  Js.truthy (image_url cfg dir i) = true.
Proof.
  unfold image_url.
  destruct dir as [|c dir]; [|reflexivity]. simpl.
  destruct (BASENAME cfg) as [|c b]; [|reflexivity]. simpl.
  destruct (Js.string_of_nat (i + 1)) as [|c d]; reflexivity.
Qed.

(** *** The timer *)

Lemma stopAutoplay_ok (t : Timer) :
  timer_ok t ->
  autoplay (stopAutoplay t) = None /\ active (stopAutoplay t) = []
  /\ last_id (stopAutoplay t) = last_id t.
Proof.
  unfold timer_ok, stopAutoplay. destruct (autoplay t) as [[|id]|]; simpl.
  - intros [_ [H _]]. lia.
  - intros [-> _]. simpl. rewrite Nat.eqb_refl. auto.
  - auto.
Qed.

Lemma startAutoplay_ok (t : Timer) :
  timer_ok t ->
  autoplay (startAutoplay t) = Some (S (last_id t))
  /\ active (startAutoplay t) = [S (last_id t)]
  /\ last_id (startAutoplay t) = S (last_id t).
Proof.
  intros H. destruct (stopAutoplay_ok t H) as (Ha & Hb & Hc).
  unfold startAutoplay. cbn [autoplay active last_id]. rewrite Hb, Hc. auto.
Qed.

Lemma timer_ok_stop (t : Timer) : timer_ok t -> timer_ok (stopAutoplay t).
Proof.
  intros H. destruct (stopAutoplay_ok t H) as (Ha & Hb & _).
  unfold timer_ok. now rewrite Ha.
Qed.

Lemma timer_ok_start (t : Timer) : timer_ok t -> timer_ok (startAutoplay t).
Proof.
  intros H. destruct (startAutoplay_ok t H) as (Ha & Hb & Hc).
  unfold timer_ok. rewrite Ha, Hb, Hc. split; [reflexivity | lia].
Qed.

Lemma timer_openLightbox (url label : string) (s : State) :
  timer (openLightbox pg url label s) = timer s
  \/ timer (openLightbox pg url label s) = stopAutoplay (timer s).
Proof.
  unfold openLightbox.
  destruct (lightbox pg), (lightboxImg pg), (lightboxCaption pg); simpl; auto.
Qed.

Lemma timer_closeLightbox (s : State) :
  timer (closeLightbox pg s) = timer s
  \/ timer (closeLightbox pg s) = startAutoplay (timer s).
Proof.
  unfold closeLightbox.
  destruct (lightbox pg), (lightboxImg pg); simpl; auto.
Qed.

Lemma timer_ok_handle (s : State) (e : Event) :
  timer_ok (timer s) -> timer_ok (timer (handle cfg pg s e)).
Proof.
  intros H. destruct e as [id|i| | |key|hidden|entries]; simpl; auto.
  - destruct (thumbs (gal s) !! i) as [th|]; [|exact H].
    destruct (timer_openLightbox (th_url th) (th_label th) s) as [-> | ->];
      auto using timer_ok_stop.
  - destruct (timer_closeLightbox s) as [-> | ->]; auto using timer_ok_start.
  - destruct (timer_closeLightbox s) as [-> | ->]; auto using timer_ok_start.
  - destruct (_ && _); [|exact H].
    destruct (timer_closeLightbox s) as [-> | ->]; auto using timer_ok_start.
  - destruct hidden; auto using timer_ok_stop, timer_ok_start.
Qed.

Lemma timer_ok_load (m : Markup) : timer_ok (timer (load cfg pg m)).
Proof.
  unfold load. destruct (length (fullImages cfg) =? 0).
  - destruct (statusEl pg); reflexivity.
  - cbn [timer with_timer]. apply timer_ok_start. reflexivity.
Qed.

Lemma timer_ok_reachable (s : State) :
  reachable cfg pg s -> timer_ok (timer s).
Proof.
  induction 1 as [m | s e _ IH _].
  - apply timer_ok_load.
  - now apply timer_ok_handle.
Qed.

Lemma reachable_run (s : State) (es : list Event) :
  reachable cfg pg s -> possible cfg pg s es = true -> reachable cfg pg (run cfg pg s es).
Proof.
  revert s. induction es as [|e es IH]; intros s Hs Hp; simpl in *.
  - exact Hs.
  - apply andb_prop in Hp as [He Hp].
    apply IH; [now apply reachable_step | exact Hp].
Qed.

(** *** The autoplay tick *)

Lemma idx_updateStatus (sh : Slideshow) : idx (updateStatus cfg pg sh) = idx sh.
Proof. unfold updateStatus. now destruct (statusEl pg). Qed.

Lemma track_updateStatus (sh : Slideshow) : track (updateStatus cfg pg sh) = track sh.
Proof. unfold updateStatus. now destruct (statusEl pg). Qed.

Lemma idx_tick (sh : Slideshow) : idx (tick cfg pg sh) = advance cfg (idx sh).
Proof.
  unfold tick, renderSlide. destruct (slidesTrack pg); simpl; [|reflexivity].
  now rewrite idx_updateStatus.
Qed.

Lemma track_tick (sh : Slideshow) :
  slidesTrack pg = true ->
  track (tick cfg pg sh) = [slide_of cfg (advance cfg (idx sh))].
Proof.
  intros H. unfold tick, renderSlide. rewrite H. simpl.
  now rewrite track_updateStatus.
Qed.

Lemma status_tick (sh : Slideshow) :
  slidesTrack pg = true -> statusEl pg = true -> 1 <= COUNT cfg ->
  status (tick cfg pg sh)
  = ordinal (advance cfg (idx sh)) +:+ " / " +:+ Js.string_of_nat (COUNT cfg).
Proof.
  intros H1 H2 H3. unfold tick, renderSlide, updateStatus. rewrite H1, H2. simpl.
  rewrite length_fullImages. destruct (Nat.eqb_spec (COUNT cfg) 0); [lia | reflexivity].
Qed.

Lemma advance_Fin (i : nat) :
  1 <= COUNT cfg -> advance cfg (Fin i) = Fin ((i + 1) mod COUNT cfg).
Proof.
  intros H. unfold advance. rewrite length_fullImages.
  destruct (Nat.eqb_spec (COUNT cfg) 0); [lia | reflexivity].
Qed.

Lemma run_snoc (s : State) (es : list Event) (e : Event) :
  run cfg pg s (es ++ [e]) = handle cfg pg (run cfg pg s es) e.
Proof. unfold run. now rewrite fold_left_app. Qed.

Lemma run_ticks_S (s : State) (id n : nat) :
  run cfg pg s (repeat (Tick id) (S n))
  = handle cfg pg (run cfg pg s (repeat (Tick id) n)) (Tick id).
Proof. rewrite <- run_snoc, <- repeat_cons. reflexivity. Qed.

Lemma possible_ticks (s : State) (id n : nat) :
  enabled pg s (Tick id) = true -> possible cfg pg s (repeat (Tick id) n) = true.
Proof.
  revert s. induction n as [|n IH]; intros s H; simpl; [reflexivity|].
  apply andb_true_intro. split; [exact H|]. apply IH. exact H.
Qed.

Lemma image_at_Fin (k : nat) :
  k < COUNT cfg -> image_at cfg (Fin k) = image_url cfg (FOLDER cfg) k.
Proof.
  intros H. unfold image_at, fullImages. now rewrite lookup_image by exact H.
Qed.

(** C4: from index [i] of a non-empty image set, [n] autoplay ticks lead
    to index [(i + n) mod total]; every one of them can fire and
    re-renders: the slide shown and the status text are those of that
    index; from [total - 1] one tick wraps to [0]. *)
Theorem autoplay_index_after_ticks (s : State) (i n id : nat) :
  1 <= COUNT cfg -> i < COUNT cfg ->
  idx (show s) = Fin i ->
  enabled pg s (Tick id) = true ->
  let k := (i + n) mod COUNT cfg in
  let s' := run cfg pg s (repeat (Tick id) n) in
  possible cfg pg s (repeat (Tick id) n) = true
  /\ idx (show s') = Fin k
  /\ idx (show (handle cfg pg s (Tick id))) = Fin ((i + 1) mod COUNT cfg)
  /\ (1 <= n -> slidesTrack pg = true ->
      track (show s') = [slide_of cfg (Fin k)]
      /\ img_src (slide_of cfg (Fin k)) = image_url cfg (FOLDER cfg) k
      /\ img_alt (slide_of cfg (Fin k)) = "Portfolio image " +:+ Js.string_of_nat (k + 1))
  /\ (1 <= n -> slidesTrack pg = true -> statusEl pg = true ->
      status (show s')
      = Js.string_of_nat (k + 1) +:+ " / " +:+ Js.string_of_nat (COUNT cfg))
  /\ (i = COUNT cfg - 1 -> idx (show (handle cfg pg s (Tick id))) = Fin 0).
Proof.
  intros Hc Hi Hidx Hen k s'.
  assert (Hrun : forall m, idx (show (run cfg pg s (repeat (Tick id) m)))
                           = Fin ((i + m) mod COUNT cfg)).
  { induction m as [|m IH].
    - simpl. rewrite Hidx, Nat.add_0_r, Nat.mod_small by exact Hi. reflexivity.
    - rewrite run_ticks_S. simpl.
      rewrite idx_tick, IH, advance_Fin by exact Hc.
      rewrite Nat.Div0.add_mod_idemp_l. f_equal. f_equal. lia. }
  assert (Hone : idx (show (handle cfg pg s (Tick id))) = Fin ((i + 1) mod COUNT cfg)).
  { simpl. now rewrite idx_tick, Hidx, advance_Fin. }
  assert (Hk : k < COUNT cfg) by (apply Nat.mod_upper_bound; lia).
  assert (Hlast : 1 <= n ->
                  advance cfg (idx (show (run cfg pg s (repeat (Tick id) (n - 1))))) = Fin k).
  { intros Hn. rewrite Hrun, advance_Fin by exact Hc.
    rewrite Nat.Div0.add_mod_idemp_l. unfold k. f_equal. f_equal. lia. }
  assert (Hs' : 1 <= n ->
                s' = handle cfg pg (run cfg pg s (repeat (Tick id) (n - 1))) (Tick id)).
  { intros Hn. unfold s'. rewrite <- run_ticks_S.
    do 2 f_equal. lia. }
  split; [now apply possible_ticks|].
  split; [apply Hrun|].
  split; [exact Hone|].
  split.
  { intros Hn Ht. rewrite (Hs' Hn). simpl.
    rewrite track_tick, (Hlast Hn) by assumption.
    repeat split. simpl. now apply image_at_Fin. }
  split.
  { intros Hn Ht Hst. rewrite (Hs' Hn). simpl.
    rewrite status_tick, (Hlast Hn) by assumption. reflexivity. }
  intros Hw. rewrite Hone. subst i. f_equal.
  replace (COUNT cfg - 1 + 1) with (COUNT cfg) by lia. apply Nat.Div0.mod_same.
Qed.

(** *** One timer *)

(** C6: in every reachable state at most one interval is scheduled, and
    it is the one [autoplay] names; [startAutoplay] cancels it and
    schedules exactly one new interval, [stopAutoplay] cancels it and
    sets the handle to [null]. *)
Theorem at_most_one_autoplay_timer (s : State) :
  reachable cfg pg s ->
  length (active (timer s)) <= 1
  /\ active (timer s) = match autoplay (timer s) with Some id => [id] | None => [] end
  /\ (exists id, autoplay (startAutoplay (timer s)) = Some id
                 /\ active (startAutoplay (timer s)) = [id]
                 /\ id ∉ active (timer s))
  /\ autoplay (stopAutoplay (timer s)) = None
  /\ active (stopAutoplay (timer s)) = [].
Proof.
  intros Hs. pose proof (timer_ok_reachable s Hs) as Hok.
  destruct (startAutoplay_ok _ Hok) as (Ha & Hb & _).
  destruct (stopAutoplay_ok _ Hok) as (Hc & Hd & _).
  assert (Hact : active (timer s)
                 = match autoplay (timer s) with Some id => [id] | None => [] end
                 /\ forall id, id ∈ active (timer s) -> id <= last_id (timer s)).
  { unfold timer_ok in Hok. destruct (autoplay (timer s)) as [id|].
    - destruct Hok as [-> Hr]. split; [reflexivity|].
      intros x Hx. apply list_elem_of_singleton in Hx. lia.
    - rewrite Hok. split; [reflexivity|]. intros x Hx. inversion Hx. }
  destruct Hact as [Hact Hle].
  repeat split; try assumption.
  - rewrite Hact. destruct (autoplay (timer s)); simpl; lia.
  - exists (S (last_id (timer s))). repeat split; try assumption.
    intros Hin. apply Hle in Hin. lia.
Qed.

(** *** The lightbox and the timer *)

Lemma viewing_opens (allowed : Event -> bool) (s : State) :
  viewing_with cfg pg allowed s -> opens pg = true.
Proof. induction 1; assumption. Qed.

Lemma viewing_reachable (allowed : Event -> bool) (s : State) :
  viewing_with cfg pg allowed s -> reachable cfg pg s.
Proof. induction 1; now apply reachable_step. Qed.

Lemma openLightbox_opens (url label : string) (s : State) :
  opens pg = true ->
  timer (openLightbox pg url label s) = stopAutoplay (timer s)
  /\ lb_hidden (lbox (openLightbox pg url label s)) = false
  /\ lb_aria_hidden (lbox (openLightbox pg url label s)) = Some "false"
  /\ lb_src (lbox (openLightbox pg url label s)) = Some url.
Proof.
  unfold opens, openLightbox. intros H.
  apply andb_prop in H as [H H3]. apply andb_prop in H as [H1 H2].
  rewrite H1, H2, H3. simpl. auto.
Qed.

Lemma closeLightbox_opens (s : State) :
  opens pg = true ->
  timer (closeLightbox pg s) = startAutoplay (timer s)
  /\ lb_hidden (lbox (closeLightbox pg s)) = true
  /\ lb_aria_hidden (lbox (closeLightbox pg s)) = Some "true"
  /\ lb_src (lbox (closeLightbox pg s)) = None.
Proof.
  unfold opens, closeLightbox. intros H.
  apply andb_prop in H as [H H3]. apply andb_prop in H as [H1 H2].
  rewrite H1, H2. simpl. auto.
Qed.

Lemma stopAutoplay_stopped (t : Timer) :
  autoplay t = None -> active t = [] ->
  autoplay (stopAutoplay t) = None /\ active (stopAutoplay t) = [].
Proof. unfold stopAutoplay. intros -> H. simpl. auto. Qed.

Lemma viewing_without_resume_stopped (s : State) :
  viewing_without_resume cfg pg s ->
  stopped s /\ lb_hidden (lbox s) = false.
Proof.
  induction 1 as [s i Hs He Ho | s e Hv [[Ha Hb] Hh] He Hal Hhid].
  - cbn [enabled] in He. apply bool_decide_eq_true in He as [th Hth].
    cbn [handle]. rewrite Hth.
    destruct (openLightbox_opens (th_url th) (th_label th) s Ho) as (Ht & Hl & _).
    split; [|exact Hl]. unfold stopped. rewrite Ht.
    destruct (stopAutoplay_ok _ (timer_ok_reachable s Hs)) as (H1 & H2 & _). auto.
  - pose proof (viewing_opens _ _ Hv) as Ho.
    split; [|exact Hhid]. unfold stopped.
    destruct e as [id|i| | |key|hidden|entries]; cbn [handle] in *.
    + cbn [enabled] in He. apply bool_decide_eq_true in He.
      rewrite Hb in He. inversion He.
    + destruct (thumbs (gal s) !! i) as [th|]; [|auto].
      destruct (openLightbox_opens (th_url th) (th_label th) s Ho) as (Ht & _).
      rewrite Ht. now apply stopAutoplay_stopped.
    + destruct (closeLightbox_opens s Ho) as (_ & Hc & _). congruence.
    + destruct (closeLightbox_opens s Ho) as (_ & Hc & _). congruence.
    + destruct (_ && _); [|auto].
      destruct (closeLightbox_opens s Ho) as (_ & Hc & _). congruence.
    + destruct hidden; [|discriminate Hal]. simpl.
      now apply stopAutoplay_stopped.
    + simpl. auto.
Qed.

(** C5, as the script behaves: while the lightbox is open and the page
    has not become visible again since, the autoplay timer is stopped
    and no tick can fire; closing the lightbox starts a timer, and so
    does the page becoming visible while the lightbox stays open. *)
Theorem lightbox_stops_autoplay_until_resume (s : State) :
  viewing_without_resume cfg pg s ->
  stopped s
  /\ lb_hidden (lbox s) = false
  /\ (forall id, enabled pg s (Tick id) = false)
  /\ autoplay (timer (closeLightbox pg s)) = Some (S (last_id (timer s)))
  /\ autoplay (timer (handle cfg pg s (VisibilityChange false))) = Some (S (last_id (timer s)))
  /\ lb_hidden (lbox (handle cfg pg s (VisibilityChange false))) = false.
Proof.
  intros Hv. destruct (viewing_without_resume_stopped s Hv) as [[Ha Hb] Hh].
  pose proof (viewing_opens _ _ Hv) as Ho.
  pose proof (timer_ok_reachable s (viewing_reachable _ _ Hv)) as Hok.
  destruct (startAutoplay_ok _ Hok) as (Hs & _).
  destruct (closeLightbox_opens s Ho) as (Hc & _).
  split; [split; assumption|]. split; [exact Hh|]. split.
  { intros id. cbn [enabled]. apply bool_decide_eq_false. rewrite Hb. inversion 1. }
  rewrite Hc. simpl. auto.
Qed.

(** *** Lazy loading of the thumbnails *)

Lemma gal_openLightbox (url label : string) (s : State) :
  gal (openLightbox pg url label s) = gal s.
Proof.
  unfold openLightbox.
  now destruct (lightbox pg), (lightboxImg pg), (lightboxCaption pg).
Qed.

Lemma gal_closeLightbox (s : State) : gal (closeLightbox pg s) = gal s.
Proof. unfold closeLightbox. now destruct (lightbox pg), (lightboxImg pg). Qed.

Lemma load_count_snoc (i j : nat) (u : string) (g : Gallery) (ts : list Thumb) :
  load_count i {| thumbs := ts; rootMargin := rootMargin g; loads := loads g ++ [(j, u)] |}
  = load_count i g + (if j =? i then 1 else 0).
Proof.
  unfold load_count. simpl. rewrite List.filter_app, length_app. simpl.
  destruct (j =? i); reflexivity.
Qed.

Lemma thumb_phase_entry (i : nat) (b : bool) (g : Gallery) (e : nat * bool) :
  thumb_phase cfg i b g ->
  thumb_phase cfg i (b || ((fst e =? i) && snd e)) (on_entry g e).
Proof.
  intros (th & Hth & Hph). destruct e as [j isect]. unfold on_entry. simpl.
  destruct isect; simpl.
  2:{ rewrite andb_false_r, orb_false_r. now exists th. }
  rewrite andb_true_r.
  destruct (Nat.eqb_spec j i) as [-> | Hne].
  - rewrite Hth, orb_true_r.
    exists (promote th). split.
    { cbn [thumbs]. rewrite list_lookup_alter.
      destruct (decide (i = i)); [|congruence]. now rewrite Hth. }
    destruct b.
    + destruct Hph as (Hc & Hs & Hd & Ho).
      unfold pending_src, promote. rewrite Hd. simpl. auto.
    + destruct Hph as (Hc & Hs & Hd & Ho).
      unfold pending_src, promote. rewrite Hd.
      unfold deferred_src. rewrite image_url_truthy. simpl.
      rewrite load_count_snoc, Hc, Nat.eqb_refl. auto.
  - rewrite orb_false_r.
    destruct (thumbs g !! j) as [th'|] eqn:Hj; [|now exists th].
    exists th. split.
    { simpl. now rewrite list_lookup_alter_ne. }
    assert (Hcount : load_count i {| thumbs := alter promote j (thumbs g);
                                              rootMargin := rootMargin g;
                                              loads := match pending_src th' with
                                                       | Some u => loads g ++ [(j, u)]
                                                       | None => loads g
                                                       end |} = load_count i g).
    { destruct (pending_src th').
      - rewrite load_count_snoc. destruct (Nat.eqb_spec j i); [congruence | lia].
      - reflexivity. }
    destruct b; rewrite Hcount; exact Hph.
Qed.

Lemma thumb_phase_entries (i : nat) (entries : list (nat * bool)) (b : bool) (g : Gallery) :
  thumb_phase cfg i b g ->
  thumb_phase cfg i (b || reports i entries) (on_intersection entries g).
Proof.
  revert b g. induction entries as [|e entries IH]; intros b g H; simpl.
  - now rewrite orb_false_r.
  - rewrite orb_assoc. apply IH. now apply thumb_phase_entry.
Qed.

Lemma thumb_phase_handle (i : nat) (b : bool) (s : State) (e : Event) :
  thumb_phase cfg i b (gal s) ->
  thumb_phase cfg i (b || reported i [e]) (gal (handle cfg pg s e)).
Proof.
  intros H. unfold reported. simpl. rewrite orb_false_r.
  destruct e as [id|j| | |key|hidden|entries]; simpl;
    rewrite ?orb_false_r, ?gal_closeLightbox; try exact H.
  - destruct (thumbs (gal s) !! j); [rewrite gal_openLightbox|]; exact H.
  - destruct (_ && _); [rewrite gal_closeLightbox|]; exact H.
  - now apply thumb_phase_entries.
Qed.

Lemma thumb_phase_run (i : nat) (es : list Event) (b : bool) (s : State) :
  thumb_phase cfg i b (gal s) ->
  thumb_phase cfg i (b || reported i es) (gal (run cfg pg s es)).
Proof.
  revert b s. induction es as [|e es IH]; intros b s H.
  - simpl. now rewrite orb_false_r.
  - replace (reported i (e :: es)) with (reported i [e] || reported i es)
      by (unfold reported; simpl; now rewrite orb_false_r).
    rewrite orb_assoc. apply (IH _ (handle cfg pg s e)).
    now apply thumb_phase_handle.
Qed.

Lemma rootMargin_entries (entries : list (nat * bool)) (g : Gallery) :
  rootMargin (on_intersection entries g) = rootMargin g.
Proof.
  revert g. induction entries as [|e entries IH]; intros g; simpl; [reflexivity|].
  rewrite IH. unfold on_entry.
  destruct (snd e); simpl; [|reflexivity]. now destruct (thumbs g !! fst e).
Qed.

Lemma rootMargin_run (es : list Event) (s : State) :
  rootMargin (gal (run cfg pg s es)) = rootMargin (gal s).
Proof.
  revert s. induction es as [|e es IH]; intros s; simpl; [reflexivity|].
  rewrite IH.
  destruct e as [id|j| | |key|hidden|entries]; simpl;
    rewrite ?gal_closeLightbox; try reflexivity.
  - destruct (thumbs (gal s) !! j); [rewrite gal_openLightbox|]; reflexivity.
  - destruct (_ && _); [rewrite gal_closeLightbox|]; reflexivity.
  - apply rootMargin_entries.
Qed.

Lemma gal_load (m : Markup) :
  galleryEl pg = true -> 1 <= COUNT cfg ->
  gal (load cfg pg m)
  = {| thumbs := imap (thumb_of cfg) (fullImages cfg);
       rootMargin := Some "350px 0px"; loads := [] |}.
Proof.
  intros Hg Hc. unfold load. rewrite length_fullImages.
  destruct (Nat.eqb_spec (COUNT cfg) 0); [lia|].
  simpl. unfold renderGallery. now rewrite Hg.
Qed.

Lemma thumb_phase_load (m : Markup) (i : nat) :
  galleryEl pg = true -> i < COUNT cfg ->
  thumb_phase cfg i false (gal (load cfg pg m)).
Proof.
  intros Hg Hi. rewrite gal_load by (assumption || lia).
  exists (thumb_of cfg i (image_url cfg (FOLDER cfg) i)). split.
  - simpl. rewrite list_lookup_imap. unfold fullImages.
    now rewrite lookup_image by exact Hi.
  - simpl. repeat split. unfold thumbImages, deferred_src.
    rewrite lookup_image by exact Hi. simpl. unfold Js.or_else.
    now rewrite image_url_truthy.
Qed.

(** C7: whatever events occur after the script has run, the [src] of
    thumbnail [i] has been assigned exactly once if an observer entry
    has reported the thumbnail as intersecting, and never otherwise;
    once assigned it holds the deferred source, the deferred source is
    removed and the image is unobserved.  The observer uses a margin of
    350px. *)
Theorem thumbnail_loads_once (m : Markup) (es : list Event) (i : nat) :
  galleryEl pg = true -> i < COUNT cfg ->
  let g := gal (run cfg pg (load cfg pg m) es) in
  rootMargin g = Some "350px 0px"
  /\ exists th, thumbs g !! i = Some th /\
       if reported i es
       then load_count i g = 1 /\ th_src th = Some (deferred_src cfg i)
            /\ th_data_src th = None /\ th_observed th = false
       else load_count i g = 0 /\ th_src th = None
            /\ th_data_src th = Some (deferred_src cfg i) /\ th_observed th = true.
Proof.
  intros Hg Hi g. split.
  - unfold g. rewrite rootMargin_run, gal_load by (assumption || lia). reflexivity.
  - apply (thumb_phase_run i es false). now apply thumb_phase_load.
Qed.

End Facts.

(** *** The site's own configuration *)

(** C4 at the site: 45 ticks after the start the slideshow, with its 44
    images, shows the second one. *)
Lemma autoplay_index_after_ticks_witness :
  1 <= COUNT site /\ 0 < COUNT site
  /\ idx (show started) = Fin 0
  /\ enabled full_page started (Tick 1) = true
  /\ idx (show (run site full_page started (repeat (Tick 1) 45))) = Fin ((0 + 45) mod COUNT site)
  /\ status (show (run site full_page started (repeat (Tick 1) 45)))
     = Js.string_of_nat ((0 + 45) mod COUNT site + 1) +:+ " / " +:+ Js.string_of_nat (COUNT site).
Proof.
  assert (H1 : 1 <= COUNT site) by (simpl; lia).
  assert (H2 : 0 < COUNT site) by (simpl; lia).
  assert (H3 : idx (show started) = Fin 0) by reflexivity.
  assert (H4 : enabled full_page started (Tick 1) = true) by (vm_compute; reflexivity).
  destruct (autoplay_index_after_ticks site full_page started 0 45 1 H1 H2 H3 H4)
    as (_ & Hidx & _ & _ & Hstatus & _).
  split; [exact H1|]. split; [exact H2|]. split; [exact H3|]. split; [exact H4|].
  split; [exact Hidx|].
  apply Hstatus; [lia | reflexivity | reflexivity].
Defined.

(** At the site the last image is followed by the first. *)
Example site_wraps :
  idx (show (run site full_page started (repeat (Tick 1) 43))) = Fin 43
  /\ status (show (run site full_page started (repeat (Tick 1) 43))) = "44 / 44"
  /\ idx (show (run site full_page started (repeat (Tick 1) 44))) = Fin 0
  /\ status (show (run site full_page started (repeat (Tick 1) 44))) = "1 / 44"
  /\ map img_src (track (show (run site full_page started (repeat (Tick 1) 44))))
     = ["images/Collection/Slides/slide-1.webp"].
Proof. repeat split; vm_compute; reflexivity. Qed.

(** With no images the script only writes the status text: no slide, no
    gallery, no timer. *)
Example empty_site :
  load no_images full_page plain_markup
  = {| show := {| idx := Fin 0; track := []; status := "No images found." |};
       timer := {| autoplay := None; active := []; last_id := 0 |};
       lbox := m_lbox plain_markup;
       gal := {| thumbs := []; rootMargin := None; loads := [] |} |}.
Proof. reflexivity. Qed.

(** C6 at the site, after a lightbox visit and a change of tab. *)
Lemma at_most_one_autoplay_timer_witness :
  reachable site full_page after_visit /\ length (active (timer after_visit)) <= 1.
Proof.
  assert (Hs : reachable site full_page after_visit).
  { apply reachable_run; [apply reachable_load | vm_compute; reflexivity]. }
  split; [exact Hs|].
  exact (proj1 (at_most_one_autoplay_timer site full_page after_visit Hs)).
Defined.

Lemma viewing_back_on_tab : viewing site full_page back_on_tab.
Proof.
  change back_on_tab
    with (handle site full_page
            (handle site full_page
               (handle site full_page started (ThumbClick 0))
               (VisibilityChange true))
            (VisibilityChange false)).
  apply viewing_step; [apply viewing_step; [apply viewing_open|..]|..];
    try (vm_compute; reflexivity).
  apply reachable_load.
Qed.

(** C5 fails: after the visitor has opened a thumbnail, left the tab and
    come back, the lightbox is still open, yet interval 2 is scheduled,
    can fire, and advances the slideshow behind the lightbox. *)
Lemma autoplay_resumes_behind_open_lightbox :
  viewing site full_page back_on_tab
  /\ lb_hidden (lbox back_on_tab) = false
  /\ autoplay (timer back_on_tab) = Some 2
  /\ active (timer back_on_tab) = [2]
  /\ enabled full_page back_on_tab (Tick 2) = true
  /\ idx (show back_on_tab) = Fin 0
  /\ idx (show (handle site full_page back_on_tab (Tick 2))) = Fin 1
  /\ ~ open_lightbox_halts_autoplay site full_page.
Proof.
  split; [exact viewing_back_on_tab|].
  do 6 (split; [vm_compute; reflexivity|]).
  intros H. destruct (H back_on_tab viewing_back_on_tab) as [Ha _].
  vm_compute in Ha. discriminate Ha.
Qed.

(** C5 as amended, at the site: the visitor has opened the first
    thumbnail and left the tab. *)
Lemma lightbox_stops_autoplay_until_resume_witness :
  viewing_without_resume site full_page lightbox_on_hidden_tab
  /\ stopped lightbox_on_hidden_tab.
Proof.
  assert (Hv : viewing_without_resume site full_page lightbox_on_hidden_tab).
  { apply viewing_step; [apply viewing_open|..]; try (vm_compute; reflexivity).
    apply reachable_load. }
  split; [exact Hv|].
  exact (proj1 (lightbox_stops_autoplay_until_resume site full_page _ Hv)).
Defined.

(** C7 at the site: the first thumbnail, reported three times, is
    loaded once; the second, never reported as intersecting, is not. *)
Lemma thumbnail_loads_once_witness :
  galleryEl full_page = true /\ 0 < COUNT site
  /\ reported 0 scrolling = true /\ reported 1 scrolling = false
  /\ load_count 0 (gal (run site full_page started scrolling)) = 1
  /\ load_count 1 (gal (run site full_page started scrolling)) = 0
  /\ loads (gal (run site full_page started scrolling))
     = [(0, "images/Collection/Thumbs/slide-1.webp")].
Proof.
  assert (H1 : galleryEl full_page = true) by reflexivity.
  assert (H2 : 0 < COUNT site) by (simpl; lia).
  assert (H3 : 1 < COUNT site) by (simpl; lia).
  destruct (thumbnail_loads_once site full_page plain_markup scrolling 0 H1 H2)
    as (_ & th0 & _ & Hth0).
  destruct (thumbnail_loads_once site full_page plain_markup scrolling 1 H1 H3)
    as (_ & th1 & _ & Hth1).
  change (reported 0 scrolling) with true in Hth0.
  change (reported 1 scrolling) with false in Hth1.
  split; [exact H1|]. split; [exact H2|].
  split; [reflexivity|]. split; [reflexivity|].
  split; [exact (proj1 Hth0)|]. split; [exact (proj1 Hth1)|].
  vm_compute. reflexivity.
Defined.

End PortfolioFacts.

(** ** Properties of the order form validator and submitter *)

Module OrderFormFacts.

Import OrderForm OrderFormNotions JsFacts.

(** *** Validation *)

Lemma check_required_spec (d : Document) (els : list Control) (acc : list string) :
  check_required d els acc
  = (marked_until_throw d els, option_map (app acc) (rejected_labels d els)).
Proof.
  revert acc. induction els as [|el els IH]; intros acc; simpl.
  - now rewrite app_nil_r.
  - unfold marked, rejected. destruct (required el); simpl.
    + destruct (control_ok el); simpl.
      * now rewrite IH.
      * destruct (humanLabel d el) as [l|]; [|reflexivity].
        rewrite IH. f_equal. destruct (rejected_labels d els); simpl; [|reflexivity].
        now rewrite <- app_assoc.
    + now rewrite IH.
Qed.

Lemma collect_missing_spec (w : World) :
  collect_missing w
  = option_map
      (fun labels =>
         labels ++ (if length (item_rows (form w)) =? 0 then ["At least 1 item line"] else []))
      (rejected_labels (doc w) (controls (form w))).
Proof.
  unfold collect_missing. rewrite check_required_spec. simpl.
  destruct (rejected_labels (doc w) (controls (form w))); simpl; [|reflexivity].
  destruct (length (item_rows (form w)) =? 0); [reflexivity | now rewrite app_nil_r].
Qed.

Lemma rejected_labels_Some (d : Document) (els : list Control) (labels : list string) :
  rejected_labels d els = Some labels
  <-> Forall2 (fun el l => humanLabel d el = Some l) (List.filter rejected els) labels.
Proof.
  revert labels. induction els as [|el els IH]; intros labels; simpl.
  - split; [intros [= <-]; constructor | intros H; now inversion H].
  - destruct (rejected el); [|apply IH].
    destruct (humanLabel d el) as [l|] eqn:Hl.
    + destruct (rejected_labels d els) as [ls|]; simpl; split.
      * intros [= <-]. constructor; [exact Hl | now apply IH].
      * intros H. inversion H as [|? l' ? ls' H1 H2]; subst.
        apply IH in H2. congruence.
      * discriminate.
      * intros H. inversion H as [|? l' ? ls' H1 H2]; subst.
        apply IH in H2. discriminate H2.
    + split; [discriminate|]. intros H. inversion H; subst. congruence.
Qed.

Lemma rejected_labels_total (d : Document) (els : list Control) :
  List.Forall (fun el => rejected el = true -> humanLabel d el <> None) els ->
  exists labels, rejected_labels d els = Some labels.
Proof.
  induction 1 as [|el els H _ IH]; simpl; [now exists []|].
  destruct IH as [ls ->]. destruct (rejected el); [|now exists ls].
  destruct (humanLabel d el) as [l|]; [now exists (l :: ls) | now destruct H].
Qed.

Lemma humanLabel_plain (d : Document) (el : Control) :
  plain_id el = true -> humanLabel d el <> None.
Proof.
  unfold plain_id, humanLabel, label_for. destruct (id_attr el) as [id|]; [|discriminate].
  intros ->. destruct (Js.truthy id); [|discriminate].
  now destruct (List.find _ (labels d)).
Qed.

Lemma plain_labels_total (d : Document) (els : list Control) :
  List.Forall (fun el => rejected el = true -> plain_id el = true) els ->
  exists labels, rejected_labels d els = Some labels.
Proof.
  intros H. apply rejected_labels_total. eapply List.Forall_impl; [|exact H].
  intros el Hel Hr. apply humanLabel_plain. auto.
Qed.

Lemma marked_when_no_throw (d : Document) (els : list Control) (labels : list string) :
  rejected_labels d els = Some labels -> marked_until_throw d els = map marked els.
Proof.
  revert labels. induction els as [|el els IH]; intros labels; simpl; [reflexivity|].
  destruct (rejected el).
  - destruct (humanLabel d el); [|discriminate].
    destruct (rejected_labels d els) as [ls|] eqn:E; [|discriminate].
    intros _. now rewrite (IH ls).
  - intros H. now rewrite (IH labels).
Qed.

Lemma same_but_marker_marked (el : Control) : same_but_marker el (marked el).
Proof. unfold same_but_marker, marked. now destruct (required el). Qed.

Lemma Forall2_marked (els : list Control) :
  Forall2 same_but_marker els (map marked els).
Proof.
  induction els as [|el els IH]; simpl; constructor;
    [apply same_but_marker_marked | exact IH].
Qed.

Lemma Forall2_same_refl (els : list Control) : Forall2 same_but_marker els els.
Proof. induction els; constructor; [reflexivity | assumption]. Qed.

Lemma Forall2_marked_until_throw (d : Document) (els : list Control) :
  Forall2 same_but_marker els (marked_until_throw d els).
Proof.
  induction els as [|el els IH]; simpl; [constructor|].
  destruct (rejected el); [destruct (humanLabel d el)|];
    constructor; try apply same_but_marker_marked; try exact IH.
  apply Forall2_same_refl.
Qed.

Lemma controls_validateForm (w : World) :
  controls (form (fst (validateForm w)))
  = marked_until_throw (doc w) (controls (form w)).
Proof.
  unfold validateForm. rewrite check_required_spec.
  destruct (collect_missing w); [|reflexivity].
  destruct (errorBox w); [|reflexivity].
  now destruct (negb _).
Qed.

Lemma validateForm_fails (w : World) (box : ErrorBox) (missing : list string) :
  errorBox w = Some box -> collect_missing w = Some missing -> missing <> [] ->
  validateForm w
  = ({| form := with_controls (form w) (map marked (controls (form w)));
        errorBox := Some {| display := "block"; innerHTML := error_html missing |};
        doc := doc w; requests := requests w; navigations := navigations w;
        scrolls := scrolls w ++ [("smooth", "start")] |}, Some false).
Proof.
  intros Hb Hm Hne. unfold validateForm. rewrite Hm, Hb, check_required_spec. simpl.
  rewrite collect_missing_spec in Hm.
  destruct (rejected_labels (doc w) (controls (form w))) as [ls|] eqn:E; [|discriminate].
  rewrite (marked_when_no_throw _ _ _ E).
  destruct missing; [congruence | reflexivity].
Qed.

Lemma validateForm_passes (w : World) (box : ErrorBox) :
  errorBox w = Some box -> collect_missing w = Some [] ->
  validateForm w
  = ({| form := with_controls (form w) (map marked (controls (form w)));
        errorBox := Some {| display := "none"; innerHTML := EmptyString |};
        doc := doc w; requests := requests w; navigations := navigations w;
        scrolls := scrolls w |}, Some true).
Proof.
  intros Hb Hm. unfold validateForm. rewrite Hm, Hb, check_required_spec. simpl.
  rewrite collect_missing_spec in Hm.
  destruct (rejected_labels (doc w) (controls (form w))) as [ls|] eqn:E; [|discriminate].
  now rewrite (marked_when_no_throw _ _ _ E).
Qed.

(** A verdict is reached only with an error panel and without a throw
    in the loop. *)
Lemma verdict_inv (w : World) (b : bool) :
  snd (validateForm w) = Some b ->
  exists box missing,
    errorBox w = Some box /\ collect_missing w = Some missing
    /\ (b = true <-> missing = []).
Proof.
  unfold validateForm.
  destruct (collect_missing w) as [missing|]; [|discriminate].
  destruct (errorBox w) as [box|]; [|discriminate].
  intros H. exists box, missing. split; [reflexivity|]. split; [reflexivity|].
  destruct missing; simpl in H; injection H as <-; split; congruence.
Qed.

Lemma valid_inv (w : World) :
  snd (validateForm w) = Some true ->
  exists box, errorBox w = Some box /\ collect_missing w = Some [].
Proof.
  intros H. destruct (verdict_inv w true H) as (box & missing & Hb & Hm & Hiff).
  exists box. split; [exact Hb|]. now rewrite Hm, (proj1 Hiff eq_refl).
Qed.

Lemma invalid_inv (w : World) :
  snd (validateForm w) = Some false ->
  exists box missing,
    errorBox w = Some box /\ collect_missing w = Some missing /\ missing <> [].
Proof.
  intros H. destruct (verdict_inv w false H) as (box & missing & Hb & Hm & Hiff).
  exists box, missing. split; [exact Hb|]. split; [exact Hm|].
  intros E. apply Hiff in E. discriminate E.
Qed.

Lemma submitOrder_unsent (eng : Engine) (o : FetchOutcome) (w : World) :
  snd (validateForm w) <> Some true -> submitOrder eng o w = fst (validateForm w).
Proof.
  intros H. unfold submitOrder, submit_start.
  destruct (validateForm w) as [w1 [[|]|]]; simpl in *; congruence.
Qed.

Lemma filter_nil_iff {A : Type} (f : A -> bool) (l : list A) :
  List.filter f l = [] <-> List.Forall (fun x => f x = false) l.
Proof.
  induction l as [|x l IH]; simpl.
  - split; [constructor | reflexivity].
  - destruct (f x) eqn:E; split; intros H.
    + discriminate H.
    + inversion H; congruence.
    + constructor; [exact E | now apply IH].
    + inversion H; subst. now apply IH.
Qed.

Lemma no_rejected_iff (els : list Control) :
  List.filter rejected els = []
  <-> List.Forall (fun el => required el = true -> control_ok el = true) els.
Proof.
  rewrite filter_nil_iff. split; intros H; (eapply List.Forall_impl; [|exact H]);
    unfold rejected; intros el.
  - intros Hr Hq. rewrite Hq in Hr. simpl in Hr. now destruct (control_ok el).
  - intros Hr. destruct (required el); [|reflexivity]. now rewrite Hr.
Qed.

(** Validation returns [true] exactly on a page with the error panel,
    with every required control valid and at least one item row. *)
Lemma passes_iff (w : World) :
  snd (validateForm w) = Some true
  <-> errorBox w <> None
      /\ List.Forall (fun el => required el = true -> control_ok el = true)
           (controls (form w))
      /\ item_rows (form w) <> [].
Proof.
  split.
  - intros H. destruct (valid_inv w H) as (box & Hb & Hm).
    split; [congruence|]. rewrite collect_missing_spec in Hm.
    destruct (rejected_labels (doc w) (controls (form w))) as [ls|] eqn:E; [|discriminate].
    simpl in Hm. injection Hm as Hm. apply app_eq_nil in Hm as [-> Hrows].
    apply rejected_labels_Some in E. inversion E as [Hnil|]; subst.
    split; [now apply no_rejected_iff|].
    intros Er. rewrite Er in Hrows. discriminate Hrows.
  - intros (Hb & Hc & Hr). destruct (errorBox w) as [box|] eqn:Eb; [|congruence].
    apply no_rejected_iff in Hc.
    assert (Hm : collect_missing w = Some []).
    { rewrite collect_missing_spec.
      assert (E : rejected_labels (doc w) (controls (form w)) = Some []).
      { apply rejected_labels_Some. rewrite Hc. constructor. }
      rewrite E. simpl. destruct (item_rows (form w)); [congruence | reflexivity]. }
    now rewrite (validateForm_passes w box Eb Hm).
Qed.

Lemma judged_valid_iff (el : Control) : control_ok el = true <-> judged_valid el.
Proof.
  unfold control_ok, judged_valid, is_checkbox.
  destruct (decide (type el = Some "checkbox")) as [E|E].
  - rewrite E. reflexivity.
  - assert (Hc : match type el with
                 | Some t => String.eqb t "checkbox"
                 | None => false
                 end = false).
    { destruct (type el) as [t|]; [|reflexivity].
      destruct (String.eqb_spec t "checkbox"); [congruence | reflexivity]. }
    rewrite Hc, opt_or_empty, truthy_true_iff, trim_empty_iff. reflexivity.
Qed.

Lemma marks_spec (els : list Control) :
  Forall2 (fun el el' =>
             if required el
             then field_error el' = negb (control_ok el) /\ same_but_marker el el'
             else el' = el)
    els (map marked els).
Proof.
  induction els as [|el els IH]; simpl; constructor; [|exact IH].
  pose proof (same_but_marker_marked el) as Hm. unfold marked in *.
  destruct (required el); [split; [reflexivity | exact Hm] | reflexivity].
Qed.

(** C1, as the script behaves on a page that has the error panel, for a
    form in which the id of every rejected control is one that the
    selector of the label lookup carries unchanged (the lookup then
    cannot throw): validation judges every required
    control on its own (a checkbox by [checked], any other control by
    whether its value is more than white space), marks exactly the
    rejected ones, collects one label per rejected control and the
    item-line error when the form has no item row, and fails exactly
    when something was collected: then the panel shows one list entry
    per error and nothing is sent; otherwise the panel is hidden and
    emptied and validation succeeds. *)
Theorem validateForm_collects_and_marks (w : World) (box : ErrorBox) :
  errorBox w = Some box ->
  List.Forall (fun el => rejected el = true -> plain_id el = true) (controls (form w)) ->
  let w' := fst (validateForm w) in
  let valid := snd (validateForm w) in
  (forall el, control_ok el = true <-> judged_valid el)
  /\ Forall2 (fun el el' =>
                if required el
                then field_error el' = negb (control_ok el) /\ same_but_marker el el'
                else el' = el)
       (controls (form w)) (controls (form w'))
  /\ exists labels,
       Forall2 (fun el l => humanLabel (doc w) el = Some l)
         (List.filter rejected (controls (form w))) labels
       /\ let missing :=
            labels ++ (if length (item_rows (form w)) =? 0
                       then ["At least 1 item line"] else []) in
          collect_missing w = Some missing
          /\ (valid = Some false <-> missing <> [])
          /\ (valid = Some true <-> missing = [])
          /\ (missing <> [] ->
                errorBox w'
                = Some {| display := "block";
                          innerHTML :=
                            "<strong>Please complete the required fields:</strong><ul>"
                            +:+ Js.join EmptyString
                                  (map (fun m => "<li>" +:+ m +:+ "</li>") missing)
                            +:+ "</ul>" |}
                /\ forall eng o, requests (submitOrder eng o w) = requests w
                                 /\ navigations (submitOrder eng o w) = navigations w)
          /\ (missing = [] ->
                errorBox w' = Some {| display := "none"; innerHTML := EmptyString |}).
Proof.
  intros Hb Hl w' valid.
  destruct (plain_labels_total (doc w) _ Hl) as [labels E].
  split; [apply judged_valid_iff|].
  split. { unfold w'. rewrite controls_validateForm, (marked_when_no_throw _ _ _ E).
           apply marks_spec. }
  exists labels. split; [now apply rejected_labels_Some|].
  intros missing.
  assert (Hm : collect_missing w = Some missing).
  { rewrite collect_missing_spec, E. reflexivity. }
  split; [exact Hm|].
  destruct missing as [|m ms] eqn:Em.
  - pose proof (validateForm_passes w box Hb Hm) as Hv.
    unfold valid, w'. rewrite Hv. simpl.
    split; [split; [discriminate | congruence]|].
    split; [split; reflexivity|].
    split; [congruence | reflexivity].
  - assert (Hne : m :: ms <> []) by discriminate.
    pose proof (validateForm_fails w box _ Hb Hm Hne) as Hv.
    unfold valid, w'. rewrite Hv. simpl.
    split; [split; [intros _; exact Hne | reflexivity]|].
    split; [split; discriminate|].
    split; [|discriminate].
    intros _. split; [reflexivity|].
    intros eng o. rewrite submitOrder_unsent by (rewrite Hv; discriminate).
    rewrite Hv. split; reflexivity.
Qed.

(** C1 on a quick-order form with three required fields, one of them
    empty, and no item row: exactly the label of the empty field and the
    item-line error are collected, and nothing is sent. *)
Lemma validateForm_collects_and_marks_witness :
  errorBox incomplete = Some {| display := EmptyString; innerHTML := EmptyString |}
  /\ List.Forall (fun el => rejected el = true -> plain_id el = true)
       (controls (form incomplete))
  /\ collect_missing incomplete = Some ["Name"; "At least 1 item line"]
  /\ snd (validateForm incomplete) = Some false
  /\ option_map innerHTML (errorBox (fst (validateForm incomplete)))
     = Some ("<strong>Please complete the required fields:</strong><ul>"
             +:+ "<li>Name</li><li>At least 1 item line</li></ul>")
  /\ map field_error (controls (form (fst (validateForm incomplete)))) = [true; false; false]
  /\ requests (submitOrder v8 (FetchResolves accepted) incomplete) = [].
Proof.
  assert (H1 : errorBox incomplete
               = Some {| display := EmptyString; innerHTML := EmptyString |})
    by reflexivity.
  assert (H2 : List.Forall (fun el => rejected el = true -> plain_id el = true)
                 (controls (form incomplete))).
  { repeat constructor. }
  assert (Hc : collect_missing incomplete = Some ["Name"; "At least 1 item line"])
    by (vm_compute; reflexivity).
  destruct (validateForm_collects_and_marks incomplete _ H1 H2)
    as (_ & _ & labels & _ & Hm & Hv & _ & Hfail & _).
  assert (Hne : labels ++ (if length (item_rows (form incomplete)) =? 0
                           then ["At least 1 item line"] else []) <> []).
  { intros E. rewrite E in Hm. rewrite Hc in Hm. discriminate Hm. }
  split; [exact H1|]. split; [exact H2|].
  split; [exact Hc|].
  split; [exact (proj2 Hv Hne)|].
  destruct (Hfail Hne) as [Hbox Hreq].
  split.
  { rewrite Hbox. simpl. rewrite Hc in Hm. injection Hm as <-. reflexivity. }
  split; [vm_compute; reflexivity|].
  exact (proj1 (Hreq v8 (FetchResolves accepted))).
Defined.

(** C1 fails as stated: on a page without the error panel the valid
    sample form collects no error, and yet validation does not succeed:
    it throws where it reads [errorBox.style], and no request is sent. *)
Lemma validation_aborts_without_panel :
  errorBox complete_without_panel = None
  /\ List.Forall (fun el => required el = true -> judged_valid el)
       (controls (form complete_without_panel))
  /\ item_rows (form complete_without_panel) <> []
  /\ collect_missing complete_without_panel = Some []
  /\ snd (validateForm complete_without_panel) = None
  /\ snd (validateForm complete_without_panel) <> Some true
  /\ requests (submitOrder v8 (FetchResolves accepted) complete_without_panel) = [].
Proof.
  split; [reflexivity|].
  split. { repeat constructor. intros _. apply judged_valid_iff. vm_compute. reflexivity. }
  split; [discriminate|].
  split; [vm_compute; reflexivity|].
  split; [vm_compute; reflexivity|].
  split; [vm_compute; discriminate|].
  vm_compute. reflexivity.
Qed.

(** A field that holds white space only counts as empty; a required
    checkbox counts when checked, whatever its value. *)
Example control_ok_samples :
  control_ok (text_input None None "   ") = false
  /\ control_ok (text_input None None " x ") = true
  /\ control_ok {| id_attr := None; name_attr := Some "terms"; placeholder_attr := None;
                   required := true; type := Some "checkbox"; checked := false;
                   value := Some "on"; default_checked := false;
                   default_value := Some "on"; field_error := false |} = false.
Proof. repeat split; vm_compute; reflexivity. Qed.

(** *** Labels *)








(** *** The attempt when validation fails *)

(** C10 fails as stated: the failed validation of the sample form also
    scrolls the error panel into view. *)
Lemma failed_validation_scrolls :
  snd (validateForm incomplete) = Some false
  /\ scrolls incomplete = []
  /\ scrolls (submitOrder v8 (FetchResolves accepted) incomplete)
     = [("smooth", "start")]
  /\ ~ same_but_markers_and_panel incomplete
         (submitOrder v8 (FetchResolves accepted) incomplete).
Proof.
  split; [vm_compute; reflexivity|].
  split; [reflexivity|].
  split; [vm_compute; reflexivity|].
  intros (_ & _ & _ & _ & _ & H). vm_compute in H. discriminate H.
Qed.

(** C10, as the script behaves: when validation fails the submit button,
    the requests and the navigation are untouched, the controls change
    in their error marker only, the error panel is filled and shown,
    and the panel is scrolled into view. *)
Theorem failed_validation_frame (eng : Engine) (o : FetchOutcome) (w : World) :
  snd (validateForm w) = Some false ->
  let w' := submitOrder eng o w in
  submit_button (form w') = submit_button (form w)
  /\ requests w' = requests w
  /\ navigations w' = navigations w
  /\ doc w' = doc w
  /\ with_controls (form w') [] = with_controls (form w) []
  /\ Forall2 same_but_marker (controls (form w)) (controls (form w'))
  /\ (exists missing,
        collect_missing w = Some missing /\ missing <> []
        /\ errorBox w' = Some {| display := "block"; innerHTML := error_html missing |})
  /\ scrolls w' = scrolls w ++ [("smooth", "start")].
Proof.
  intros H w'. destruct (invalid_inv w H) as (box & missing & Hb & Hm & Hne).
  unfold w'. rewrite submitOrder_unsent by (rewrite H; discriminate).
  rewrite (validateForm_fails w box missing Hb Hm Hne). simpl.
  repeat split. { apply Forall2_marked. }
  exists missing. repeat split; assumption.
Qed.

(** C10 as amended, on the sample form. *)
Lemma failed_validation_frame_witness :
  snd (validateForm incomplete) = Some false
  /\ submit_button (form (submitOrder v8 (FetchResolves accepted) incomplete))
     = Some (send_button "Send order")
  /\ requests (submitOrder v8 (FetchResolves accepted) incomplete) = []
  /\ scrolls (submitOrder v8 (FetchResolves accepted) incomplete) = [("smooth", "start")].
Proof.
  assert (H : snd (validateForm incomplete) = Some false) by (vm_compute; reflexivity).
  destruct (failed_validation_frame v8 (FetchResolves accepted) incomplete H)
    as (Hb & Hr & _ & _ & _ & _ & _ & Hs).
  split; [exact H|]. split; [exact Hb|]. split; [exact Hr | exact Hs].
Defined.

(** *** The payload *)

Lemma filter_map_swap {A B : Type} (f : B -> bool) (g : A -> B) (l : list A) :
  List.filter f (map g l) = map g (List.filter (fun x => f (g x)) l).
Proof.
  induction l as [|x l IH]; simpl; [reflexivity|].
  destruct (f (g x)); simpl; now rewrite IH.
Qed.





Lemma getAll_without_eq (name : string) (fd : list (string * string)) :
  fd_getAll name (fd_without name fd) = [].
Proof.
  unfold fd_getAll, fd_without. induction fd as [|e fd IH]; simpl; [reflexivity|].
  destruct (String.eqb (fst e) name) eqn:E; simpl; [exact IH|].
  now rewrite E.
Qed.

Lemma getAll_without_ne (name n : string) (fd : list (string * string)) :
  n <> name -> fd_getAll n (fd_without name fd) = fd_getAll n fd.
Proof.
  intros Hne. unfold fd_getAll, fd_without.
  induction fd as [|e fd IH]; simpl; [reflexivity|].
  destruct (String.eqb_spec (fst e) name) as [E|E]; simpl.
  - destruct (String.eqb_spec (fst e) n) as [E'|E']; [congruence | exact IH].
  - destruct (String.eqb (fst e) n); simpl; now rewrite IH.
Qed.

Lemma getAll_set_eq (name v : string) (fd : list (string * string)) :
  fd_getAll name (fd_set name v fd) = [v].
Proof.
  induction fd as [|e fd IH]; simpl.
  - unfold fd_getAll. simpl. now rewrite String.eqb_refl.
  - destruct (String.eqb (fst e) name) eqn:E.
    + unfold fd_getAll. simpl. rewrite String.eqb_refl. simpl. f_equal.
      apply getAll_without_eq.
    + unfold fd_getAll in *. simpl. now rewrite E.
Qed.

Lemma getAll_set_ne (name n v : string) (fd : list (string * string)) :
  n <> name -> fd_getAll n (fd_set name v fd) = fd_getAll n fd.
Proof.
  intros Hne. induction fd as [|e fd IH]; simpl.
  - unfold fd_getAll. simpl.
    destruct (String.eqb_spec name n); [congruence | reflexivity].
  - destruct (String.eqb_spec (fst e) name) as [E|E].
    + unfold fd_getAll at 1. simpl.
      destruct (String.eqb_spec name n) as [E'|E']; [congruence|].
      fold (fd_getAll n (fd_without name fd)). rewrite getAll_without_ne by exact Hne.
      unfold fd_getAll. simpl.
      destruct (String.eqb_spec (fst e) n); [congruence | reflexivity].
    + unfold fd_getAll in *. simpl.
      destruct (String.eqb (fst e) n); simpl; now rewrite IH.
Qed.

Lemma getAll_append (name n v : string) (fd : list (string * string)) :
  fd_getAll n (fd_append name v fd)
  = fd_getAll n fd ++ (if String.eqb name n then [v] else []).
Proof.
  unfold fd_getAll, fd_append. rewrite List.filter_app, map_app. simpl.
  now destruct (String.eqb name n).
Qed.

Lemma submit_start_valid (w : World) :
  snd (validateForm w) = Some true ->
  submit_start w
  = (send (order_request w)
       (with_form (fst (validateForm w))
          (with_button (form (fst (validateForm w)))
             (option_map press (submit_button (form w))))), true).
Proof.
  intros H. destruct (valid_inv w H) as (box & Hb & Hm). unfold submit_start.
  rewrite (validateForm_passes w box Hb Hm). reflexivity.
Qed.

Lemma requests_submit_start (w : World) :
  snd (validateForm w) = Some true ->
  requests (fst (submit_start w)) = requests w ++ [order_request w].
Proof.
  intros H. rewrite submit_start_valid by exact H.
  destruct (valid_inv w H) as (box & Hb & Hm).
  now rewrite (validateForm_passes w box Hb Hm).
Qed.



(** *** The settled request *)

Section Settled.

Variable eng : Engine.

Lemma get_field (data : Json) (p : string) :
  data <> JNull -> get eng data p = Normal (field data p).
Proof. destruct data; simpl; congruence. Qed.

Lemma on_response_readable (res : Response) (w : World) :
  body res <> JNull ->
  on_response eng res w
  = (if negb (ok res) || negb (truthy (field (body res) "ok")) then
       match failure_url eng
               (or_else (or_else (field (body res) "error") (field (body res) "message"))
                  (PStr ("Request failed (" +:+ Js.string_of_nat (status res) +:+ ")"))) with
       | Normal href => (navigate href w, None)
       | Throw e => (w, Some e)
       end
     else
       let w1 := if reset_is_function (form w) then reset w else w in
       match success_url eng (or_else (field (body res) "order_id") (PStr EmptyString))
               (or_else (field (body res) "job_id") (PStr EmptyString)) with
       | Normal href => (navigate href w1, None)
       | Throw e => (w1, Some e)
       end).
Proof.
  intros Hnn. unfold on_response, failed, failure_message.
  rewrite !get_field by exact Hnn.
  assert (Hmsg : (let* em := (if truthy (field (body res) "error")
                              then Normal (field (body res) "error")
                              else Normal (field (body res) "message")) in
                  Normal (or_else em
                            (PStr ("Request failed (" +:+ Js.string_of_nat (status res)
                                   +:+ ")"))))
                 = Normal
                     (or_else (or_else (field (body res) "error") (field (body res) "message"))
                        (PStr ("Request failed (" +:+ Js.string_of_nat (status res)
                               +:+ ")")))).
  { unfold or_else at 3. now destruct (truthy (field (body res) "error")). }
  cbn [bind]. rewrite Hmsg.
  destruct (ok res); cbn [negb orb bind].
  - destruct (truthy (field (body res) "ok")); cbn [negb bind]; reflexivity.
  - reflexivity.
Qed.

Lemma on_response_null (res : Response) (w : World) :
  body res = JNull ->
  on_response eng res w
  = (w, Some {| message :=
                  PStr (null_read_message eng (if ok res then "ok" else "error")) |}).
Proof.
  intros Hb. unfold on_response, failed, failure_message. rewrite Hb.
  now destruct (ok res).
Qed.

Lemma failure_url_Some (msg : Prim) (m : string) :
  Js.encodeURIComponent (to_string msg) = Some m ->
  failure_url eng msg = Normal ("/order-status.html?ok=0&msg=" +:+ m).
Proof. intros H. unfold failure_url, encode. now rewrite H. Qed.

Lemma failure_url_None (msg : Prim) :
  Js.encodeURIComponent (to_string msg) = None ->
  failure_url eng msg = Throw (uri_error eng).
Proof. intros H. unfold failure_url, encode. now rewrite H. Qed.

Lemma success_url_Some (orderId jobId : Prim) (o j : string) :
  Js.encodeURIComponent (to_string orderId) = Some o ->
  Js.encodeURIComponent (to_string jobId) = Some j ->
  success_url eng orderId jobId
  = Normal ("/order-status.html?ok=1&order_id=" +:+ o +:+ "&job_id=" +:+ j).
Proof. intros Ho Hj. unfold success_url, encode. now rewrite Ho, Hj. Qed.

Lemma success_url_None (orderId jobId : Prim) :
  Js.encodeURIComponent (to_string orderId) = None
  \/ Js.encodeURIComponent (to_string jobId) = None ->
  success_url eng orderId jobId = Throw (uri_error eng).
Proof.
  unfold success_url, encode. intros [H | H]; rewrite H; [reflexivity|].
  now destruct (Js.encodeURIComponent (to_string orderId)).
Qed.



Lemma button_on_response (res : Response) (w : World) :
  submit_button (form (fst (on_response eng res w))) = submit_button (form w).
Proof.
  unfold on_response.
  destruct (failed eng res (body res)) as [[|]|e]; simpl.
  - now destruct (bind _ _).
  - destruct (bind _ _); destruct (reset_is_function (form w)); reflexivity.
  - reflexivity.
Qed.

Lemma button_on_error (err : Thrown) (w : World) :
  submit_button (form (on_error eng err w)) = submit_button (form w).
Proof. unfold on_error. now destruct (failure_url _ _). Qed.

Lemma button_submit_finish (o : FetchOutcome) (w : World) :
  submit_button (form (submit_finish eng o w))
  = option_map release (submit_button (form w)).
Proof.
  unfold submit_finish. destruct o as [err|res].
  - simpl. now rewrite button_on_error.
  - pose proof (button_on_response res w) as H.
    destruct (on_response eng res w) as [w1 [e|]]; simpl in *;
      now rewrite ?button_on_error, H.
Qed.




End Settled.


(** The redirects of the sample responses.  An order identifier that
    holds a lone surrogate sends an accepted order to the failure page,
    after the form has been reset; a number is written as JavaScript
    prints it. *)
Example redirect_samples :
  navigations (submitOrder v8 (FetchResolves accepted) complete)
  = ["/order-status.html?ok=1&order_id=A1&job_id=J9"]
  /\ navigations (submitOrder v8 (FetchResolves out_of_stock) complete)
     = ["/order-status.html?ok=0&msg=Out%20of%20stock"]
  /\ navigations (submitOrder v8 (FetchResolves unparsable) complete)
     = ["/order-status.html?ok=0&msg=Request%20failed%20(200)"]
  /\ navigations (submitOrder v8 (FetchRejects {| message := PStr "Failed to fetch" |}) complete)
     = ["/order-status.html?ok=0&msg=Failed%20to%20fetch"]
  /\ navigations (submitOrder v8 (FetchRejects {| message := PUndefined |}) complete)
     = ["/order-status.html?ok=0&msg=Network%20error"]
  /\ navigations (submitOrder v8 (FetchResolves accepted_unencodable) complete)
     = ["/order-status.html?ok=0&msg=URI%20malformed"]
  /\ map value (controls (form (submitOrder v8 (FetchResolves accepted_unencodable) complete)))
     = [Some EmptyString]
  /\ navigations (submitOrder v8 (FetchRejects {| message := PStr lone_surrogate |}) complete)
     = []
  /\ navigations
       (submitOrder v8
          (FetchResolves
             {| status := 200;
                json := Resolves (JObject {[ "ok" := PBool true;
                                             "order_id" := PNum sextillion ]}) |}) complete)
     = ["/order-status.html?ok=1&order_id=1e%2B21&job_id="].
Proof. repeat split; vm_compute; reflexivity. Qed.




End OrderFormFacts.

(** ** Further properties of the JavaScript primitives *)

Module JsMore.

Import JsFacts.

Lemma append_inv_head (a x y : string) : a +:+ x = a +:+ y -> x = y.
Proof. induction a as [|c a IH]; simpl; [auto | intros [= H]; auto]. Qed.

Lemma append_inv_tail (x y t : string) : x +:+ t = y +:+ t -> x = y.
Proof.
  intros H. apply (f_equal list_ascii_of_string) in H.
  rewrite !chars_append in H. apply app_inv_tail in H.
  apply (f_equal string_of_list_ascii) in H.
  now rewrite !string_of_list_ascii_of_string in H.
Qed.

Lemma string_of_nat_inj (a b : nat) :
  Js.string_of_nat a = Js.string_of_nat b -> a = b.
Proof.
  unfold Js.string_of_nat. intros H.
  apply (f_equal NilEmpty.uint_of_string) in H. rewrite !NilEmpty.usu in H.
  injection H as H. now apply Unsigned.to_uint_inj.
Qed.

End JsMore.

(** ** Further properties of the slideshow, gallery and lightbox *)

Module PortfolioMore.

Import Portfolio PortfolioNotions PortfolioFacts JsMore.

Section More.

Variable cfg : Config.
Variable pg : Page.

(** *** The image set *)

Lemma image_url_inj (dir : string) (i j : nat) :
  image_url cfg dir i = image_url cfg dir j -> i = j.
Proof.
  unfold image_url. intros H.
  apply append_inv_head, append_inv_head, append_inv_tail, string_of_nat_inj in H.
  lia.
Qed.

Lemma NoDup_image_list (dir : string) :
  NoDup (map (image_url cfg dir) (seq 0 (COUNT cfg))).
Proof.
  change (map (image_url cfg dir) (seq 0 (COUNT cfg)))
    with (image_url cfg dir <$> seq 0 (COUNT cfg)).
  apply NoDup_fmap_2; [|apply NoDup_seq].
  intros i j. apply image_url_inj.
Qed.

Lemma lookup_image_ge (dir : string) (i : nat) :
  COUNT cfg <= i -> map (image_url cfg dir) (seq 0 (COUNT cfg)) !! i = None.
Proof.
  intros H. apply lookup_ge_None. now rewrite length_map, length_seq.
Qed.

(** X1: the slides and the thumbnails are two lists of [COUNT]
    addresses each; entry [i] of either is its folder followed by the
    base name, the number [i + 1], a dot and the extension, so the two
    lists are aligned; there is no entry beyond the last; and no
    address occurs twice in a list. *)
Theorem image_lists_are_aligned_and_distinct :
  length (fullImages cfg) = COUNT cfg
  /\ length (thumbImages cfg) = COUNT cfg
  /\ (forall i, i < COUNT cfg ->
        fullImages cfg !! i
        = Some (FOLDER cfg +:+ BASENAME cfg +:+ Js.string_of_nat (i + 1)
                +:+ "." +:+ EXT cfg)
        /\ thumbImages cfg !! i
           = Some (THUMB_FOLDER cfg +:+ BASENAME cfg +:+ Js.string_of_nat (i + 1)
                   +:+ "." +:+ EXT cfg))
  /\ (forall i, COUNT cfg <= i ->
        fullImages cfg !! i = None /\ thumbImages cfg !! i = None)
  /\ NoDup (fullImages cfg)
  /\ NoDup (thumbImages cfg).
Proof.
  unfold fullImages, thumbImages.
  split; [now rewrite length_map, length_seq|].
  split; [now rewrite length_map, length_seq|].
  split. { intros i Hi. now rewrite !lookup_image by exact Hi. }
  split. { intros i Hi. now rewrite !lookup_image_ge by exact Hi. }
  split; apply NoDup_image_list.
Qed.

(** *** What each event touches *)

Lemma show_openLightbox (url label : string) (s : State) :
  show (openLightbox pg url label s) = show s.
Proof.
  unfold openLightbox.
  now destruct (lightbox pg), (lightboxImg pg), (lightboxCaption pg).
Qed.

Lemma show_closeLightbox (s : State) : show (closeLightbox pg s) = show s.
Proof. unfold closeLightbox. now destruct (lightbox pg), (lightboxImg pg). Qed.

Lemma show_handle (s : State) (e : Event) :
  is_tick e = false -> show (handle cfg pg s e) = show s.
Proof.
  destruct e as [id|i| | |key|hidden|entries]; simpl; intros H;
    rewrite ?show_closeLightbox; try reflexivity.
  - discriminate H.
  - destruct (thumbs (gal s) !! i); [apply show_openLightbox | reflexivity].
  - destruct (_ && _); [apply show_closeLightbox | reflexivity].
Qed.

Lemma gal_handle (s : State) (e : Event) :
  is_intersection e = false -> gal (handle cfg pg s e) = gal s.
Proof.
  destruct e as [id|i| | |key|hidden|entries]; simpl; intros H;
    rewrite ?gal_closeLightbox; try reflexivity.
  - destruct (thumbs (gal s) !! i); [apply gal_openLightbox | reflexivity].
  - destruct (_ && _); [apply gal_closeLightbox | reflexivity].
  - discriminate H.
Qed.

(** X2: events other than ticks never change the index, the slide or
    the status text; events other than observer reports never change
    the gallery; ticks change nothing but the slideshow. *)
Theorem events_keep_to_their_part (s : State) (es : list Event) :
  (forallb (fun e => negb (is_tick e)) es = true ->
     show (run cfg pg s es) = show s)
  /\ (forallb (fun e => negb (is_intersection e)) es = true ->
        gal (run cfg pg s es) = gal s)
  /\ (forallb is_tick es = true ->
        timer (run cfg pg s es) = timer s
        /\ lbox (run cfg pg s es) = lbox s
        /\ gal (run cfg pg s es) = gal s).
Proof.
  split; [|split]; revert s; induction es as [|e es IH]; intros s H; simpl in *;
    try tauto; apply andb_prop in H as [He H].
  - rewrite IH by exact H. apply show_handle. now destruct (is_tick e).
  - rewrite IH by exact H. apply gal_handle. now destruct (is_intersection e).
  - destruct e as [id| | | | | |]; try discriminate He.
    destruct (IH (handle cfg pg s (Tick id)) H) as (-> & -> & ->).
    simpl. auto.
Qed.

(** *** The slide shown *)

Lemma renderSlide_shows (i : nat) (sh : Slideshow) :
  1 <= COUNT cfg -> idx sh = Fin i -> shows cfg pg i (renderSlide cfg pg sh).
Proof.
  intros Hc Hi. unfold shows, renderSlide, updateStatus.
  destruct (slidesTrack pg), (statusEl pg); simpl; rewrite ?Hi;
    repeat split; try discriminate; try reflexivity.
  intros _ _. rewrite length_fullImages.
  destruct (Nat.eqb_spec (COUNT cfg) 0); [lia | reflexivity].
Qed.

(** X3: with a non-empty image set, in every state the page can reach
    the index is within the set and, where the mount points exist, the
    slide and the status text are those of the index. *)
Theorem slide_follows_index (s : State) :
  1 <= COUNT cfg -> reachable cfg pg s ->
  exists i, i < COUNT cfg
            /\ shows cfg pg i (show s)
            /\ img_src (slide_of cfg (Fin i)) = image_url cfg (FOLDER cfg) i.
Proof.
  intros Hc Hs.
  enough (exists i, i < COUNT cfg /\ shows cfg pg i (show s)) as (i & Hi & Hsh).
  { exists i. split; [exact Hi|]. split; [exact Hsh|]. simpl. now apply image_at_Fin. }
  induction Hs as [m | s e _ (i & Hi & Hsh) _].
  - exists 0. split; [lia|]. unfold load. rewrite length_fullImages.
    destruct (Nat.eqb_spec (COUNT cfg) 0); [lia|]. simpl.
    now apply renderSlide_shows.
  - destruct (is_tick e) eqn:He.
    + destruct e; try discriminate He. simpl.
      exists ((i + 1) mod COUNT cfg). split; [apply Nat.mod_upper_bound; lia|].
      apply renderSlide_shows; [exact Hc|]. simpl.
      destruct Hsh as (-> & _). now apply advance_Fin.
    + exists i. split; [exact Hi|]. now rewrite show_handle.
Qed.

(** *** The gallery buttons *)

Lemma thumb_for_promote (i : nat) (th : Thumb) :
  thumb_for cfg i th -> thumb_for cfg i (promote th).
Proof.
  unfold thumb_for, promote. intros H.
  destruct (th_data_src th) as [u|]; [destruct (Js.truthy u)|]; exact H.
Qed.

Lemma gallery_built_entry (g : Gallery) (e : nat * bool) :
  gallery_built cfg g -> gallery_built cfg (on_entry g e).
Proof.
  intros [Hlen Hth]. unfold on_entry.
  destruct (snd e); simpl; [|now split].
  destruct (thumbs g !! fst e) as [th0|] eqn:E; [|now split].
  split; simpl.
  - now rewrite length_alter.
  - intros i th. rewrite list_lookup_alter.
    destruct (decide (fst e = i)) as [<-|Hne].
    + rewrite E. simpl. intros [= <-]. apply thumb_for_promote. now apply Hth.
    + apply Hth.
Qed.

Lemma gallery_built_entries (entries : list (nat * bool)) (g : Gallery) :
  gallery_built cfg g -> gallery_built cfg (on_intersection entries g).
Proof.
  revert g. induction entries as [|e entries IH]; intros g H; simpl; [exact H|].
  apply IH. now apply gallery_built_entry.
Qed.

Lemma gallery_built_load (m : Markup) :
  galleryEl pg = true -> gallery_built cfg (gal (load cfg pg m)).
Proof.
  intros Hg. destruct (Nat.eq_dec (COUNT cfg) 0) as [H0|H0].
  - unfold load. rewrite length_fullImages, H0. simpl.
    destruct (statusEl pg); (split; [now rewrite H0 | intros i th H; inversion H]).
  - rewrite gal_load by (assumption || lia). split; simpl.
    + now rewrite length_imap, length_fullImages.
    + intros i th. rewrite list_lookup_imap.
      destruct (fullImages cfg !! i) as [url|] eqn:E; [|discriminate].
      simpl. intros [= <-].
      assert (Hi : i < COUNT cfg).
      { apply lookup_lt_Some in E. now rewrite length_fullImages in E. }
      unfold fullImages in E. rewrite lookup_image in E by exact Hi.
      injection E as <-.
      unfold thumb_for. simpl. rewrite length_fullImages. repeat split.
Qed.

Lemma gallery_built_reachable (s : State) :
  galleryEl pg = true -> reachable cfg pg s -> gallery_built cfg (gal s).
Proof.
  intros Hg Hs. induction Hs as [m | s e _ IH _].
  - now apply gallery_built_load.
  - destruct (is_intersection e) eqn:He.
    + destruct e; try discriminate He. simpl. now apply gallery_built_entries.
    + now rewrite gal_handle.
Qed.

(** X4: in every reachable state of a page that has the gallery, the
    lightbox, the image element of the lightbox and its caption element,
    thumbnail [i] can be clicked, and the click opens the lightbox on
    the full-size image [i] with the caption [Image i+1 / total],
    reveals it, and stops autoplay; the slideshow and the gallery stay
    as they are. *)
Theorem thumbnail_click_opens_its_image (s : State) (i : nat) :
  galleryEl pg = true ->
  lightbox pg = true -> lightboxImg pg = true -> lightboxCaption pg = true ->
  i < COUNT cfg ->
  reachable cfg pg s ->
  enabled pg s (ThumbClick i) = true
  /\ lbox (handle cfg pg s (ThumbClick i))
     = {| lb_hidden := false; lb_aria_hidden := Some "false";
          lb_src := Some (image_url cfg (FOLDER cfg) i);
          lb_caption := "Image " +:+ Js.string_of_nat (i + 1) +:+ " / "
                        +:+ Js.string_of_nat (COUNT cfg) |}
  /\ stopped (handle cfg pg s (ThumbClick i))
  /\ show (handle cfg pg s (ThumbClick i)) = show s
  /\ gal (handle cfg pg s (ThumbClick i)) = gal s.
Proof.
  intros Hg Hbox Himg Hcap Hi Hs.
  assert (Ho : opens pg = true) by (unfold opens; now rewrite Hbox, Himg, Hcap).
  destruct (gallery_built_reachable s Hg Hs) as [Hlen Hth].
  destruct (lookup_lt_is_Some_2 (thumbs (gal s)) i) as [th E]; [lia|].
  destruct (Hth i th E) as (Hu & Hl & _).
  split. { simpl. apply bool_decide_eq_true. now exists th. }
  simpl. rewrite E.
  split.
  { unfold openLightbox, opens in *.
    apply andb_prop in Ho as [Ho H3]. apply andb_prop in Ho as [H1 H2].
    rewrite H1, H2, H3, Hu, Hl. reflexivity. }
  split.
  { destruct (openLightbox_opens pg (th_url th) (th_label th) s Ho) as (Ht & _).
    unfold stopped. rewrite Ht.
    destruct (stopAutoplay_ok _ (timer_ok_reachable cfg pg s Hs)) as (H1 & H2 & _). auto. }
  split; [apply show_openLightbox | apply gal_openLightbox].
Qed.

(** *** The lightbox *)

Lemma lockstep_openLightbox (url label : string) (s : State) :
  lockstep (lbox s) -> lockstep (lbox (openLightbox pg url label s)).
Proof.
  unfold openLightbox, lockstep.
  destruct (lightbox pg), (lightboxImg pg), (lightboxCaption pg); simpl; auto.
Qed.

Lemma lockstep_closeLightbox (s : State) :
  lockstep (lbox s) -> lockstep (lbox (closeLightbox pg s)).
Proof.
  unfold closeLightbox, lockstep.
  destruct (lightbox pg), (lightboxImg pg); simpl; auto.
Qed.

Lemma lockstep_handle (s : State) (e : Event) :
  lockstep (lbox s) -> lockstep (lbox (handle cfg pg s e)).
Proof.
  intros H. destruct e as [id|i| | |key|hidden|entries]; simpl;
    auto using lockstep_closeLightbox.
  - destruct (thumbs (gal s) !! i); auto using lockstep_openLightbox.
  - destruct (_ && _); auto using lockstep_closeLightbox.
Qed.

Lemma lbox_load (m : Markup) : lbox (load cfg pg m) = m_lbox m.
Proof.
  unfold load. destruct (length (fullImages cfg) =? 0); [|reflexivity].
  now destruct (statusEl pg).
Qed.

(** X5: if the markup delivers the lightbox with its hidden class and
    its [aria-hidden] attribute in agreement, they agree after every
    sequence of events; and whatever the markup, they agree as soon as
    the lightbox has been opened or closed once. *)
Theorem lightbox_hidden_in_lockstep (m : Markup) (es : list Event) :
  (lockstep (m_lbox m) -> lockstep (lbox (run cfg pg (load cfg pg m) es)))
  /\ (forall s url label, opens pg = true ->
        lockstep (lbox (run cfg pg (openLightbox pg url label s) es)))
  /\ (forall s, lightbox pg = true ->
        lockstep (lbox (run cfg pg (closeLightbox pg s) es))).
Proof.
  assert (Hrun : forall s, lockstep (lbox s) -> lockstep (lbox (run cfg pg s es))).
  { induction es as [|e es' IH]; intros s H; simpl; [exact H|].
    apply IH. now apply lockstep_handle. }
  split; [|split].
  - intros H. apply Hrun. now rewrite lbox_load.
  - intros s url label Ho. apply Hrun.
    destruct (openLightbox_opens pg url label s Ho) as (_ & H1 & H2 & _).
    unfold lockstep. now rewrite H1, H2.
  - intros s Hl. apply Hrun. unfold closeLightbox, lockstep. rewrite Hl. simpl.
    now destruct (lightboxImg pg).
Qed.

(** X6: while the lightbox is hidden, key presses change nothing,
    whatever the keys; and a key other than Escape changes nothing in
    any state. *)
Theorem keys_do_nothing_while_hidden (s : State) (keys : list string) :
  (lb_hidden (lbox s) = true -> run cfg pg s (map KeyDown keys) = s)
  /\ (Forall (fun k => k <> "Escape") keys -> run cfg pg s (map KeyDown keys) = s).
Proof.
  split; induction keys as [|k keys IH]; intros H; simpl; try reflexivity.
  - rewrite H, andb_false_r. now apply IH.
  - inversion H as [|? ? Hk Hks]; subst.
    apply String.eqb_neq in Hk. rewrite Hk. simpl. now apply IH.
Qed.

(** X7: what a missing lightbox element does.  Without the lightbox,
    clicks on thumbnails, on the close button and on the backdrop and
    key presses change nothing.  With the lightbox but without its
    image element, opening changes nothing (so autoplay keeps running
    and the lightbox stays hidden), and closing hides the lightbox
    without restarting autoplay.  With lightbox and image but without
    the caption element, opening only sets the image source. *)
Theorem missing_lightbox_elements (s : State) :
  (lightbox pg = false ->
     forall e, is_tick e = false -> is_intersection e = false ->
               (forall h, e <> VisibilityChange h) ->
               handle cfg pg s e = s)
  /\ (lightbox pg = true -> lightboxImg pg = false ->
        (forall i, handle cfg pg s (ThumbClick i) = s)
        /\ timer (closeLightbox pg s) = timer s
        /\ lb_hidden (lbox (closeLightbox pg s)) = true
        /\ lb_src (lbox (closeLightbox pg s)) = lb_src (lbox s))
  /\ (lightbox pg = true -> lightboxImg pg = true -> lightboxCaption pg = false ->
        forall url label,
          timer (openLightbox pg url label s) = timer s
          /\ lb_hidden (lbox (openLightbox pg url label s)) = lb_hidden (lbox s)
          /\ lb_src (lbox (openLightbox pg url label s)) = Some url
          /\ lb_caption (lbox (openLightbox pg url label s)) = lb_caption (lbox s)).
Proof.
  split; [|split].
  - intros Hl e H1 H2 H3.
    destruct e as [id|i| | |key|hidden|entries]; simpl;
      try discriminate; unfold closeLightbox; rewrite ?Hl; try reflexivity.
    + destruct (thumbs (gal s) !! i); [|reflexivity].
      unfold openLightbox. now rewrite Hl.
    + now rewrite andb_false_r.
    + now destruct (H3 hidden).
  - intros Hl Hi. split.
    + intros i. simpl. destruct (thumbs (gal s) !! i); [|reflexivity].
      unfold openLightbox. now rewrite Hl, Hi.
    + unfold closeLightbox. rewrite Hl, Hi. simpl. auto.
  - intros Hl Hi Hc url label. unfold openLightbox. rewrite Hl, Hi, Hc. simpl. auto.
Qed.

(** *** An empty image set *)

(** X8: with no images the script renders no slide, builds no gallery
    and starts no timer, and writes [No images found.] where the status
    label exists; but its visibility listener is in place, so the page
    becoming visible starts a timer, whose tick turns the index into
    [NaN]. *)
Theorem empty_image_set (m : Markup) :
  COUNT cfg = 0 ->
  let s := load cfg pg m in
  let s1 := handle cfg pg s (VisibilityChange false) in
  track (show s) = m_track m
  /\ status (show s) = (if statusEl pg then "No images found." else m_status m)
  /\ thumbs (gal s) = [] /\ rootMargin (gal s) = None
  /\ stopped s
  /\ autoplay (timer s1) = Some (S (m_last_id m))
  /\ enabled pg s1 (Tick (S (m_last_id m))) = true
  /\ idx (show (handle cfg pg s1 (Tick (S (m_last_id m))))) = NaN.
Proof.
  intros H0 s s1.
  assert (Hl : length (fullImages cfg) = 0) by now rewrite length_fullImages.
  assert (Hs : s = if statusEl pg
                   then {| show := {| idx := Fin 0; track := m_track m;
                                      status := "No images found." |};
                           timer := {| autoplay := None; active := [];
                                       last_id := m_last_id m |};
                           lbox := m_lbox m;
                           gal := {| thumbs := []; rootMargin := None; loads := [] |} |}
                   else {| show := {| idx := Fin 0; track := m_track m;
                                      status := m_status m |};
                           timer := {| autoplay := None; active := [];
                                       last_id := m_last_id m |};
                           lbox := m_lbox m;
                           gal := {| thumbs := []; rootMargin := None; loads := [] |} |}).
  { unfold s, load. rewrite Hl. simpl. now destruct (statusEl pg). }
  assert (Hadv : forall x, advance cfg x = NaN).
  { intros x. unfold advance. rewrite Hl. now destruct x. }
  unfold s1. rewrite Hs.
  destruct (statusEl pg); simpl; unfold stopped; simpl;
    rewrite idx_tick, Hadv; repeat split;
    apply bool_decide_eq_true; left.
Qed.

(** *** The images fetched *)

Lemma NoDup_snoc {A : Type} (l : list A) (x : A) :
  NoDup l -> ~ In x l -> NoDup (l ++ [x]).
Proof.
  induction 1 as [|y l Hy Hl IH]; intros Hx; simpl.
  - constructor; [rewrite list_elem_of_In; tauto | constructor].
  - constructor.
    + rewrite list_elem_of_In in *. rewrite in_app_iff. simpl in *. intuition congruence.
    + apply IH. simpl in Hx. tauto.
Qed.

Lemma promote_pending (th : Thumb) (u : string) :
  pending_src th = Some u ->
  th_data_src (promote th) = None /\ th_src (promote th) = Some u.
Proof.
  unfold pending_src, promote. destruct (th_data_src th) as [v|]; [|discriminate].
  destruct (Js.truthy v); [|discriminate]. intros [= <-]. auto.
Qed.

Lemma promote_loaded (th : Thumb) :
  th_data_src th = None ->
  th_data_src (promote th) = None /\ th_src (promote th) = th_src th.
Proof. unfold promote. intros ->. auto. Qed.

Lemma pending_has_deferred (th : Thumb) (u : string) :
  pending_src th = Some u -> th_data_src th <> None.
Proof. unfold pending_src. destruct (th_data_src th); [discriminate | discriminate]. Qed.

Lemma loads_ok_entry (g : Gallery) (e : nat * bool) :
  loads_ok g -> loads_ok (on_entry g e).
Proof.
  intros [Hnd Hlog]. unfold on_entry.
  destruct (snd e); simpl; [|now split].
  destruct (thumbs g !! fst e) as [th0|] eqn:E; [|now split].
  assert (Hother : forall i u, In (i, u) (loads g) -> i <> fst e ->
            exists th, alter promote (fst e) (thumbs g) !! i = Some th
                       /\ th_data_src th = None /\ th_src th = Some u).
  { intros i u Hin Hne. destruct (Hlog i u Hin) as (th & Hth & Hd & Hs).
    exists th. rewrite list_lookup_alter_ne by congruence. auto. }
  destruct (pending_src th0) as [u|] eqn:Hp.
  - assert (Hfresh : ~ In (fst e) (map fst (loads g))).
    { intros Hin. apply in_map_iff in Hin as ([i u'] & Hi & Hin). simpl in Hi. subst i.
      destruct (Hlog _ _ Hin) as (th & Hth & Hd & _).
      rewrite E in Hth. injection Hth as <-.
      now apply (pending_has_deferred th0 u). }
    split; simpl.
    + rewrite map_app. simpl. now apply NoDup_snoc.
    + intros i u' Hin. apply in_app_or in Hin as [Hin | [[= <- <-] | []]].
      * apply Hother; [exact Hin|]. intros ->. apply Hfresh.
        apply in_map_iff. now exists (fst e, u').
      * exists (promote th0). rewrite list_lookup_alter.
        destruct (decide (fst e = fst e)); [|congruence].
        rewrite E. split; [reflexivity|]. now apply promote_pending.
  - split; simpl; [exact Hnd|].
    intros i u Hin. destruct (Nat.eq_dec i (fst e)) as [->|Hne]; [|now apply Hother].
    destruct (Hlog _ _ Hin) as (th & Hth & Hd & Hs).
    rewrite E in Hth. injection Hth as <-.
    exists (promote th0). rewrite list_lookup_alter.
    destruct (decide (fst e = fst e)); [|congruence].
    rewrite E. split; [reflexivity|].
    destruct (promote_loaded th0 Hd) as [H1 H2]. split; congruence.
Qed.

Lemma loads_ok_handle (s : State) (e : Event) :
  loads_ok (gal s) -> loads_ok (gal (handle cfg pg s e)).
Proof.
  intros H. destruct (is_intersection e) eqn:He; [|now rewrite gal_handle].
  destruct e as [| | | | | |entries]; try discriminate He. simpl.
  clear He. revert H. generalize (gal s).
  induction entries as [|e entries IH]; intros g H; simpl; [exact H|].
  apply IH. now apply loads_ok_entry.
Qed.

Lemma gallery_built_handle (s : State) (e : Event) :
  gallery_built cfg (gal s) -> gallery_built cfg (gal (handle cfg pg s e)).
Proof.
  intros H. destruct (is_intersection e) eqn:He; [|now rewrite gal_handle].
  destruct e; try discriminate He. simpl. now apply gallery_built_entries.
Qed.

(** X9: whatever events occur, no thumbnail is fetched twice, at most
    as many images are fetched as the gallery has thumbnails, and every
    image fetched is the deferred source of a thumbnail that an
    observer entry has reported as intersecting. *)
Theorem gallery_fetches_each_image_once (m : Markup) (es : list Event) :
  galleryEl pg = true ->
  let g := gal (run cfg pg (load cfg pg m) es) in
  NoDup (map fst (loads g))
  /\ length (loads g) <= COUNT cfg
  /\ forall i u, In (i, u) (loads g) ->
       i < COUNT cfg /\ u = deferred_src cfg i /\ reported i es = true.
Proof.
  intros Hg g.
  assert (Hinv : loads_ok (gal (run cfg pg (load cfg pg m) es))
                 /\ gallery_built cfg (gal (run cfg pg (load cfg pg m) es))).
  { assert (H0 : loads_ok (gal (load cfg pg m))
                 /\ gallery_built cfg (gal (load cfg pg m))).
    { split; [|now apply gallery_built_load].
      unfold load. destruct (length (fullImages cfg) =? 0).
      - destruct (statusEl pg); (split; [constructor | intros i u []]).
      - simpl. unfold renderGallery. rewrite Hg. simpl.
        split; [constructor | intros i u []]. }
    revert H0. generalize (load cfg pg m).
    induction es as [|e es' IH]; intros s [H1 H2]; simpl; [now split|].
    apply IH. split; [now apply loads_ok_handle | now apply gallery_built_handle]. }
  destruct Hinv as [[Hnd Hlog] [Hlen _]]. fold g in Hnd, Hlog, Hlen.
  assert (Hall : forall i u, In (i, u) (loads g) ->
            i < COUNT cfg /\ u = deferred_src cfg i /\ reported i es = true).
  { intros i u Hin. destruct (Hlog i u Hin) as (th & Hth & Hd & Hsrc).
    assert (Hi : i < COUNT cfg).
    { apply lookup_lt_Some in Hth. lia. }
    split; [exact Hi|].
    destruct (thumb_phase_run cfg pg i es false (load cfg pg m)
                (thumb_phase_load cfg pg m i Hg Hi)) as (th' & Hth' & Hph).
    fold g in Hth'. rewrite Hth in Hth'. injection Hth' as <-.
    simpl in Hph. destruct (reported i es).
    - destruct Hph as (_ & Hs & _). split; [congruence | reflexivity].
    - destruct Hph as (_ & Hs & _). congruence. }
  split; [exact Hnd|]. split; [|exact Hall].
  rewrite <- (length_map fst), <- (length_seq (COUNT cfg) 0).
  apply List.NoDup_incl_length; [now apply NoDup_ListNoDup|].
  intros i Hin. apply in_map_iff in Hin as ([j u] & <- & Hin). simpl.
  apply in_seq. destruct (Hall j u Hin) as [Hj _]. lia.
Qed.

End More.

(** X2 at the site: opening a thumbnail, scrolling, closing and a change
    of tab leave the first slide in place. *)
Lemma events_keep_to_their_part_witness :
  forallb (fun e => negb (is_tick e)) browsing = true
  /\ show (run site full_page started browsing) = show started.
Proof.
  assert (H : forallb (fun e => negb (is_tick e)) browsing = true) by reflexivity.
  split; [exact H|].
  exact (proj1 (events_keep_to_their_part site full_page started browsing) H).
Defined.

(** X3 at the site, after a visit. *)
Lemma slide_follows_index_witness :
  1 <= COUNT site /\ reachable site full_page after_visit
  /\ exists i, i < COUNT site /\ shows site full_page i (show after_visit).
Proof.
  assert (H1 : 1 <= COUNT site) by (simpl; lia).
  assert (H2 : reachable site full_page after_visit).
  { apply reachable_run; [apply reachable_load | vm_compute; reflexivity]. }
  split; [exact H1|]. split; [exact H2|].
  destruct (slide_follows_index site full_page after_visit H1 H2) as (i & Hi & Hs & _).
  exists i. split; assumption.
Defined.

(** X4 at the site: the fifth thumbnail, clicked right after the script
    has run. *)
Lemma thumbnail_click_opens_its_image_witness :
  galleryEl full_page = true
  /\ lightbox full_page = true /\ lightboxImg full_page = true
  /\ lightboxCaption full_page = true
  /\ 4 < COUNT site
  /\ reachable site full_page started
  /\ lbox (handle site full_page started (ThumbClick 4))
     = {| lb_hidden := false; lb_aria_hidden := Some "false";
          lb_src := Some "images/Collection/Slides/slide-5.webp";
          lb_caption := "Image 5 / 44" |}.
Proof.
  assert (H1 : galleryEl full_page = true) by reflexivity.
  assert (H3 : 4 < COUNT site) by (simpl; lia).
  assert (H4 : reachable site full_page started) by apply reachable_load.
  split; [exact H1|]. split; [reflexivity|]. split; [reflexivity|].
  split; [reflexivity|]. split; [exact H3|]. split; [exact H4|].
  destruct (thumbnail_click_opens_its_image site full_page started 4 H1
              eq_refl eq_refl eq_refl H3 H4)
    as (_ & Hl & _).
  rewrite Hl. vm_compute. reflexivity.
Defined.

(** X5 at the site. *)
Lemma lightbox_hidden_in_lockstep_witness :
  lockstep (m_lbox plain_markup)
  /\ lockstep (lbox (run site full_page (load site full_page plain_markup) browsing)).
Proof.
  assert (H : lockstep (m_lbox plain_markup)) by reflexivity.
  split; [exact H|].
  exact (proj1 (lightbox_hidden_in_lockstep site full_page plain_markup browsing) H).
Defined.

(** X6 at the site: with the lightbox hidden, Escape and other keys
    leave the page as it is. *)
Lemma keys_do_nothing_while_hidden_witness :
  lb_hidden (lbox started) = true
  /\ run site full_page started (map KeyDown ["Escape"; "Enter"; "Escape"]) = started.
Proof.
  assert (H : lb_hidden (lbox started) = true) by reflexivity.
  split; [exact H|].
  exact (proj1 (keys_do_nothing_while_hidden site full_page started
                  ["Escape"; "Enter"; "Escape"]) H).
Defined.

(** X8 at the site without images. *)
Lemma empty_image_set_witness :
  COUNT no_images = 0
  /\ status (show (load no_images full_page plain_markup)) = "No images found."
  /\ idx (show (handle no_images full_page
                  (handle no_images full_page (load no_images full_page plain_markup)
                     (VisibilityChange false)) (Tick 1))) = NaN.
Proof.
  assert (H : COUNT no_images = 0) by reflexivity.
  destruct (empty_image_set no_images full_page plain_markup H)
    as (_ & Hs & _ & _ & _ & _ & _ & Hn).
  split; [exact H|]. split; [exact Hs | exact Hn].
Defined.

(** X7 on pages with a missing element. *)
Lemma missing_lightbox_elements_witness :
  lightbox page_without_lightbox = false
  /\ handle site page_without_lightbox (load site page_without_lightbox plain_markup)
       (ThumbClick 0)
     = load site page_without_lightbox plain_markup
  /\ lightbox page_without_lightboxImg = true
  /\ lightboxImg page_without_lightboxImg = false
  /\ timer (closeLightbox page_without_lightboxImg
              (load site page_without_lightboxImg plain_markup))
     = timer (load site page_without_lightboxImg plain_markup).
Proof.
  assert (H1 : lightbox page_without_lightbox = false) by reflexivity.
  assert (H2 : lightbox page_without_lightboxImg = true) by reflexivity.
  assert (H3 : lightboxImg page_without_lightboxImg = false) by reflexivity.
  split; [exact H1|]. split.
  { apply (proj1 (missing_lightbox_elements site page_without_lightbox _) H1);
      [reflexivity | reflexivity | discriminate]. }
  split; [exact H2|]. split; [exact H3|].
  exact (proj1 (proj2 (proj1 (proj2 (missing_lightbox_elements site
           page_without_lightboxImg _)) H2 H3))).
Defined.

(** X9 at the site: the scrolling session fetches one image. *)
Lemma gallery_fetches_each_image_once_witness :
  galleryEl full_page = true
  /\ NoDup (map fst (loads (gal (run site full_page (load site full_page plain_markup)
                                   scrolling))))
  /\ length (loads (gal (run site full_page (load site full_page plain_markup)
                           scrolling))) <= COUNT site.
Proof.
  assert (H : galleryEl full_page = true) by reflexivity.
  destruct (gallery_fetches_each_image_once site full_page plain_markup scrolling H)
    as (Hn & Hl & _).
  split; [exact H|]. split; [exact Hn | exact Hl].
Defined.

End PortfolioMore.

(** ** Further properties of the order form *)

Module OrderFormMore.

Import OrderForm OrderFormNotions JsFacts OrderFormFacts JsMore.

(** *** Validation *)

(** X10: validation returns [true] exactly when the page has the error
    panel, every required control is judged valid and the form has at
    least one item row. *)
Theorem validation_passes_iff (w : World) :
  snd (validateForm w) = Some true
  <-> errorBox w <> None
      /\ List.Forall (fun el => required el = true -> judged_valid el)
           (controls (form w))
      /\ item_rows (form w) <> [].
Proof.
  rewrite passes_iff. split; intros (Hb & Hc & Hr); (split; [exact Hb|]);
    (split; [|exact Hr]); (eapply List.Forall_impl; [|exact Hc]);
    intros el H Hq; apply judged_valid_iff; auto.
Qed.

Lemma control_ok_marked (el : Control) : control_ok (marked el) = control_ok el.
Proof. unfold marked. now destruct (required el). Qed.

Lemma required_marked (el : Control) : required (marked el) = required el.
Proof. unfold marked. now destruct (required el) eqn:E. Qed.

Lemma humanLabel_marked (d : Document) (el : Control) :
  humanLabel d (marked el) = humanLabel d el.
Proof. unfold marked. now destruct (required el). Qed.

Lemma marked_marked (el : Control) : marked (marked el) = marked el.
Proof.
  unfold marked at 1. rewrite required_marked, control_ok_marked.
  unfold marked. now destruct (required el).
Qed.

Lemma rejected_marked (el : Control) : rejected (marked el) = rejected el.
Proof. unfold rejected. now rewrite required_marked, control_ok_marked. Qed.

(** The loop reads nothing that it writes. *)
Lemma marked_until_throw_again (d : Document) (els : list Control) :
  marked_until_throw d (marked_until_throw d els) = marked_until_throw d els.
Proof.
  induction els as [|el els IH]; simpl; [reflexivity|].
  destruct (rejected el) eqn:Hr.
  - destruct (humanLabel d el) eqn:Hl; simpl;
      rewrite rejected_marked, Hr, humanLabel_marked, Hl, marked_marked;
      [now rewrite IH | reflexivity].
  - simpl. now rewrite rejected_marked, Hr, marked_marked, IH.
Qed.

Lemma rejected_labels_again (d : Document) (els : list Control) :
  rejected_labels d (marked_until_throw d els) = rejected_labels d els.
Proof.
  induction els as [|el els IH]; simpl; [reflexivity|].
  destruct (rejected el) eqn:Hr.
  - destruct (humanLabel d el) eqn:Hl; simpl;
      rewrite rejected_marked, Hr, humanLabel_marked, Hl; [now rewrite IH | reflexivity].
  - simpl. now rewrite rejected_marked, Hr, IH.
Qed.

Lemma validateForm_shape (w : World) :
  validateForm w
  = (let cs := marked_until_throw (doc w) (controls (form w)) in
     match collect_missing w, errorBox w with
     | Some missing, Some _ =>
         if negb (length missing =? 0) then
           ({| form := with_controls (form w) cs;
               errorBox := Some {| display := "block"; innerHTML := error_html missing |};
               doc := doc w; requests := requests w; navigations := navigations w;
               scrolls := scrolls w ++ [("smooth", "start")] |}, Some false)
         else
           ({| form := with_controls (form w) cs;
               errorBox := Some {| display := "none"; innerHTML := EmptyString |};
               doc := doc w; requests := requests w; navigations := navigations w;
               scrolls := scrolls w |}, Some true)
     | _, _ => (with_form w (with_controls (form w) cs), None)
     end).
Proof.
  unfold validateForm. rewrite check_required_spec. cbn [fst].
  destruct (collect_missing w); [|reflexivity]. now destruct (errorBox w).
Qed.

Lemma frame_validateForm (w : World) :
  doc (fst (validateForm w)) = doc w
  /\ item_rows (form (fst (validateForm w))) = item_rows (form w).
Proof.
  rewrite validateForm_shape. cbn zeta.
  destruct (collect_missing w); [|now split].
  destruct (errorBox w); [|now split].
  now destruct (negb _).
Qed.

(** X11: validating again what validation has left gives the same
    markers, the same panel and the same verdict. *)
Theorem validation_is_stable (w : World) :
  form (fst (validateForm (fst (validateForm w)))) = form (fst (validateForm w))
  /\ errorBox (fst (validateForm (fst (validateForm w)))) = errorBox (fst (validateForm w))
  /\ snd (validateForm (fst (validateForm w))) = snd (validateForm w).
Proof.
  destruct (frame_validateForm w) as (Hd & Hr).
  pose proof (controls_validateForm w) as Hc.
  assert (Hm : collect_missing (fst (validateForm w)) = collect_missing w).
  { rewrite !collect_missing_spec, Hd, Hr, Hc. now rewrite rejected_labels_again. }
  assert (Hcs : marked_until_throw (doc (fst (validateForm w)))
                  (controls (form (fst (validateForm w))))
                = controls (form (fst (validateForm w)))).
  { rewrite Hd, Hc. apply marked_until_throw_again. }
  assert (Hform : with_controls (form (fst (validateForm w)))
                    (controls (form (fst (validateForm w))))
                  = form (fst (validateForm w))).
  { now destruct (form (fst (validateForm w))). }
  rewrite (validateForm_shape (fst (validateForm w))). cbn zeta.
  rewrite Hm, Hcs, Hform. clear Hd Hr Hc Hm Hcs Hform.
  rewrite (validateForm_shape w). cbn zeta.
  destruct (collect_missing w) as [missing|]; [|now repeat split].
  destruct (errorBox w) as [box|] eqn:Eb;
    [|cbn [fst snd errorBox with_form]; rewrite Eb; now repeat split].
  destruct (negb (length missing =? 0)) eqn:E; cbn [fst snd errorBox]; rewrite ?E;
    now repeat split.
Qed.

(** *** Blank and filled values *)

Lemma width_ascii_space (c : ascii) (r : string) :
  ascii_space c = true -> Js.width Js.white_space (String c r) = 1.
Proof.
  unfold ascii_space. intros H. apply bool_decide_eq_true in H.
  rewrite <- (ascii_nat_embedding c).
  repeat (apply elem_of_cons in H as [H | H]; [rewrite H; now destruct r|]).
  inversion H.
Qed.

Lemma trimStart_blank (s : string) :
  all_chars ascii_space s = true -> Js.trimStart s = EmptyString.
Proof.
  unfold Js.trimStart, all_chars. induction s as [|c r IH]; intros H; [reflexivity|].
  simpl in H. apply andb_prop in H as [Hc Hr].
  rewrite skip_all_step, width_ascii_space by exact Hc. now apply IH.
Qed.

Lemma prefix_starts_clean (p s : string) :
  String.prefix p s = true ->
  all_chars (fun c => negb (visible c)) p = true ->
  starts_clean (String.length p) s = true.
Proof.
  revert s. induction p as [|a p IH]; intros s Hp Hc; [reflexivity|].
  destruct s as [|b s]; [reflexivity|]. simpl in *.
  destruct (ascii_dec a b) as [<-|]; [|discriminate].
  unfold all_chars in *. simpl in Hc. apply andb_prop in Hc as [Ha Hc].
  rewrite Ha. simpl. now apply IH.
Qed.

Lemma skip_all_keeps_visible (tbl : list string) :
  clean tbl = true ->
  forall s skip,
    some_char visible s = true -> starts_clean skip s = true ->
    some_char visible (Js.skip_all tbl skip s) = true.
Proof.
  intros Htbl. unfold some_char.
  induction s as [|c r IH]; intros skip Hv Hs; [discriminate Hv|].
  assert (Hskip : forall k, starts_clean (S k) (String c r) = true ->
            existsb visible (list_ascii_of_string (Js.skip_all tbl k r)) = true).
  { intros k Hk. simpl in Hk. apply andb_prop in Hk as [Hc Hk].
    simpl in Hv. destruct (visible c); [discriminate Hc|]. now apply IH. }
  destruct skip as [|k].
  - rewrite skip_all_step.
    destruct (Js.width tbl (String c r)) as [|k] eqn:Hw; [exact Hv|].
    apply Hskip. unfold Js.width in Hw.
    destruct (List.find _ tbl) as [p|] eqn:Hf; [|discriminate Hw].
    apply find_some in Hf as [Hin Hp]. rewrite <- Hw.
    apply prefix_starts_clean; [exact Hp|].
    unfold clean in Htbl. rewrite forallb_forall in Htbl.
    specialize (Htbl p Hin). now apply andb_prop in Htbl as [_ Hc].
  - simpl. now apply Hskip.
Qed.

Lemma some_char_rev (p : ascii -> bool) (s : string) :
  some_char p (Js.rev_string s) = some_char p s.
Proof.
  unfold some_char, Js.rev_string. rewrite list_ascii_of_string_of_list_ascii.
  apply eq_true_iff_eq. rewrite !existsb_exists.
  split; intros (x & Hin & Hx); exists x; (split; [|exact Hx]);
    [apply in_rev | apply in_rev in Hin]; assumption.
Qed.

Lemma trim_keeps_visible (s : string) :
  some_char visible s = true -> some_char visible (Js.trim s) = true.
Proof.
  intros H. unfold Js.trim, Js.trimEnd, Js.trimStart.
  rewrite some_char_rev.
  apply skip_all_keeps_visible; [vm_compute; reflexivity | | reflexivity].
  rewrite some_char_rev.
  apply skip_all_keeps_visible; [vm_compute; reflexivity | exact H | reflexivity].
Qed.

(** X12: a required control that is not a checkbox is rejected when it
    has no value or its value consists of ASCII white space only, and
    accepted when its value holds a printable ASCII character other
    than the space. *)
Theorem blank_values_are_rejected (el : Control) :
  is_checkbox el = false ->
  (value el = None -> control_ok el = false)
  /\ (forall v, value el = Some v -> all_chars ascii_space v = true ->
                control_ok el = false)
  /\ (forall v, value el = Some v -> some_char visible v = true ->
                control_ok el = true).
Proof.
  intros Hc. unfold control_ok. rewrite Hc. split; [|split].
  - intros ->. reflexivity.
  - intros v -> Hv. simpl. unfold Js.or_else.
    destruct (Js.truthy v) eqn:Ht.
    + unfold Js.trim. now rewrite trimStart_blank.
    + reflexivity.
  - intros v -> Hv. simpl. unfold Js.or_else.
    assert (Ht : Js.truthy v = true) by (destruct v; [discriminate Hv | reflexivity]).
    rewrite Ht. apply trim_keeps_visible in Hv.
    destruct (Js.trim v); [discriminate Hv | reflexivity].
Qed.

(** X12 on three fields. *)
Lemma blank_values_are_rejected_witness :
  is_checkbox (text_input None None "  ") = false
  /\ all_chars ascii_space "  " = true
  /\ control_ok (text_input None None "  ") = false
  /\ some_char visible " 12 Main St " = true
  /\ control_ok (text_input None None " 12 Main St ") = true.
Proof.
  assert (H1 : is_checkbox (text_input None None "  ") = false) by reflexivity.
  assert (H2 : all_chars ascii_space "  " = true) by reflexivity.
  assert (H3 : some_char visible " 12 Main St " = true) by reflexivity.
  split; [exact H1|]. split; [exact H2|]. split.
  { exact (proj1 (proj2 (blank_values_are_rejected _ H1)) _ eq_refl H2). }
  split; [exact H3|].
  exact (proj2 (proj2 (blank_values_are_rejected
                         (text_input None None " 12 Main St ") eq_refl)) _ eq_refl H3).
Defined.

(** *** The payload *)

Lemma without_append (name : string) (a b : list (string * string)) :
  fd_without name (a ++ b) = fd_without name a ++ fd_without name b.
Proof. unfold fd_without. apply List.filter_app. Qed.

Lemma without_without (name : string) (fd : list (string * string)) :
  fd_without name (fd_without name fd) = fd_without name fd.
Proof.
  unfold fd_without. induction fd as [|e fd IH]; simpl; [reflexivity|].
  destruct (negb (String.eqb (fst e) name)) eqn:E; simpl; [|exact IH].
  now rewrite E, IH.
Qed.

Lemma without_set (name v : string) (fd : list (string * string)) :
  fd_without name (fd_set name v fd) = fd_without name fd.
Proof.
  induction fd as [|e fd IH]; simpl.
  - unfold fd_without. simpl. now rewrite String.eqb_refl.
  - destruct (String.eqb (fst e) name) eqn:E.
    + transitivity (fd_without name (fd_without name fd)).
      { unfold fd_without. simpl. now rewrite String.eqb_refl. }
      now rewrite without_without.
    + unfold fd_without in *. simpl. rewrite E. simpl. now rewrite IH.
Qed.

Lemma set_fresh (name v : string) (fd : list (string * string)) :
  fd_getAll name fd = [] -> fd_set name v fd = fd ++ [(name, v)].
Proof.
  unfold fd_getAll. induction fd as [|e fd IH]; simpl; [reflexivity|].
  destruct (String.eqb (fst e) name); simpl; [discriminate|].
  intros H. now rewrite IH.
Qed.

(** X13: the payload keeps every entry of the form, in order, except
    entries named [items_json]; it adds [order_type] behind them, and
    when the form has no field named [items_json] the serialized items
    come last. *)
Theorem payload_keeps_form_entries (w : World) :
  fd_without "items_json" (payload w)
  = fd_without "items_json" (entries (form w)) ++ [("order_type", order_type (form w))]
  /\ (fd_getAll "items_json" (entries (form w)) = [] ->
      payload w = entries (form w) ++ [("order_type", order_type (form w));
                                       ("items_json", stringify (items w))])
  /\ (forall name, name <> "items_json" -> name <> "order_type" ->
      fd_getAll name (payload w) = fd_getAll name (entries (form w))).
Proof.
  unfold payload. split; [|split].
  - rewrite without_set. unfold fd_append. now rewrite without_append.
  - intros H. rewrite set_fresh.
    + unfold fd_append. now rewrite <- app_assoc.
    + rewrite getAll_append, H. reflexivity.
  - intros name H1 H2. rewrite getAll_set_ne by exact H1. rewrite getAll_append.
    destruct (String.eqb_spec "order_type" name); [congruence|]. now rewrite app_nil_r.
Qed.

(** X13 on the sample form. *)
Lemma payload_keeps_form_entries_witness :
  fd_getAll "items_json" (entries (form complete)) = []
  /\ payload complete
     = entries (form complete)
       ++ [("order_type", order_type (form complete));
           ("items_json", stringify (items complete))].
Proof.
  assert (H : fd_getAll "items_json" (entries (form complete)) = []) by reflexivity.
  split; [exact H|].
  exact (proj1 (proj2 (payload_keeps_form_entries complete)) H).
Defined.

(** X14: validation counts the item rows of the form but does not read
    them: when every row of the items container is blank, a validated
    submission still sends its request, with an empty item list. *)
Theorem blank_rows_send_an_empty_list (w : World) :
  snd (validateForm w) = Some true ->
  List.Forall (fun r => filled (read_row r) = false)
    (rows_under (doc w) (itemsTbodyId (form w))) ->
  items w = []
  /\ requests (fst (submit_start w))
     = requests w
       ++ [{| req_url := "/api/orders"; req_method := "POST"; req_body := payload w |}]
  /\ fd_getAll "items_json" (payload w) = ["[]"].
Proof.
  intros Hv Hr.
  assert (Hi : items w = []).
  { unfold items. rewrite filter_map_swap.
    apply filter_nil_iff in Hr. now rewrite Hr. }
  split; [exact Hi|]. split.
  - now apply requests_submit_start.
  - unfold payload. rewrite getAll_set_eq, Hi. reflexivity.
Qed.

(** X14 on an order whose rows are all blank. *)
Lemma blank_rows_send_an_empty_list_witness :
  snd (validateForm blank_order) = Some true
  /\ List.Forall (fun r => filled (read_row r) = false)
       (rows_under (doc blank_order) (itemsTbodyId (form blank_order)))
  /\ fd_getAll "items_json" (payload blank_order) = ["[]"].
Proof.
  assert (H1 : snd (validateForm blank_order) = Some true) by (vm_compute; reflexivity).
  assert (H2 : List.Forall (fun r => filled (read_row r) = false)
                 (rows_under (doc blank_order) (itemsTbodyId (form blank_order)))).
  { vm_compute. repeat constructor. }
  split; [exact H1|]. split; [exact H2|].
  exact (proj2 (proj2 (blank_rows_send_an_empty_list blank_order H1 H2))).
Defined.

(** *** The settled request *)

Lemma on_error_cases (eng : Engine) (err : Thrown) (w : World) :
  (exists m, Js.encodeURIComponent (to_string (or_else (message err) (PStr "Network error")))
             = Some m
             /\ on_error eng err w = navigate ("/order-status.html?ok=0&msg=" +:+ m) w)
  \/ (Js.encodeURIComponent (to_string (or_else (message err) (PStr "Network error"))) = None
      /\ on_error eng err w = w).
Proof.
  unfold on_error.
  destruct (Js.encodeURIComponent
              (to_string (or_else (message err) (PStr "Network error")))) as [m|] eqn:E.
  - left. exists m. split; [reflexivity|]. now rewrite (failure_url_Some eng _ _ E).
  - right. split; [reflexivity|]. now rewrite (failure_url_None eng _ E).
Qed.

Lemma accepts_resolves (res : Response) :
  body res <> JNull ->
  accepts (FetchResolves res) = ok res && truthy (field (body res) "ok").
Proof.
  intros H. unfold accepts. destruct (body res); [congruence|..];
    now rewrite andb_true_r.
Qed.

Lemma failure_url_cases (eng : Engine) (msg : Prim) :
  (exists m, Js.encodeURIComponent (to_string msg) = Some m
             /\ failure_url eng msg = Normal ("/order-status.html?ok=0&msg=" +:+ m))
  \/ failure_url eng msg = Throw (uri_error eng).
Proof.
  destruct (Js.encodeURIComponent (to_string msg)) as [m|] eqn:E.
  - left. exists m. split; [reflexivity|]. now apply failure_url_Some.
  - right. now apply failure_url_None.
Qed.

Lemma success_url_cases (eng : Engine) (orderId jobId : Prim) :
  (exists i j, Js.encodeURIComponent (to_string orderId) = Some i
               /\ Js.encodeURIComponent (to_string jobId) = Some j
               /\ success_url eng orderId jobId
                  = Normal ("/order-status.html?ok=1&order_id=" +:+ i +:+ "&job_id=" +:+ j))
  \/ success_url eng orderId jobId = Throw (uri_error eng).
Proof.
  destruct (Js.encodeURIComponent (to_string orderId)) as [i|] eqn:Ei.
  - destruct (Js.encodeURIComponent (to_string jobId)) as [j|] eqn:Ej.
    + left. exists i, j. split; [reflexivity|]. split; [reflexivity|].
      now apply success_url_Some.
    + right. apply success_url_None. now right.
  - right. apply success_url_None. now left.
Qed.

Lemma null_or_not (data : Json) : data = JNull \/ data <> JNull.
Proof. destruct data; [now left | right; discriminate ..]. Qed.

(** The outcome of the [try] block: the world it leaves, the address it
    assigns or the error it throws. *)
Lemma on_response_cases (eng : Engine) (res : Response) (w : World) :
  let w1 := if accepts (FetchResolves res) && reset_is_function (form w)
            then reset w else w in
  (exists msg m,
     Js.encodeURIComponent (to_string msg) = Some m
     /\ accepts (FetchResolves res) = false
     /\ on_response eng res w = (navigate ("/order-status.html?ok=0&msg=" +:+ m) w, None))
  \/ (exists i j,
        Js.encodeURIComponent
          (to_string (or_else (field (body res) "order_id") (PStr EmptyString))) = Some i
        /\ Js.encodeURIComponent
             (to_string (or_else (field (body res) "job_id") (PStr EmptyString))) = Some j
        /\ accepts (FetchResolves res) = true
        /\ on_response eng res w
           = (navigate ("/order-status.html?ok=1&order_id=" +:+ i +:+ "&job_id=" +:+ j) w1,
              None))
  \/ (exists err, engine_error eng err /\ on_response eng res w = (w1, Some err)).
Proof.
  intros w1. destruct (null_or_not (body res)) as [Hb | Hnn].
  { right. right. eexists. split; [right; eexists; reflexivity|].
    rewrite on_response_null by exact Hb. unfold w1, accepts. rewrite Hb.
    now rewrite andb_false_r. }
  pose proof (accepts_resolves res Hnn) as Ha.
  rewrite on_response_readable by exact Hnn.
  destruct (ok res && truthy (field (body res) "ok")) eqn:Hacc.
  - apply andb_prop in Hacc as [Hok Ht]. rewrite Hok, Ht. cbn [negb orb].
    cbv zeta. fold w1.
    assert (Hw1 : (if reset_is_function (form w) then reset w else w) = w1).
    { unfold w1. now rewrite Ha. }
    rewrite Hw1.
    destruct (success_url_cases eng (or_else (field (body res) "order_id") (PStr EmptyString))
                (or_else (field (body res) "job_id") (PStr EmptyString)))
      as [(i & j & Hi & Hj & ->) | ->].
    + right. left. now exists i, j.
    + right. right. exists (uri_error eng). split; [now left | reflexivity].
  - assert (Hf : negb (ok res) || negb (truthy (field (body res) "ok")) = true).
    { destruct (ok res); [|reflexivity]. simpl in Hacc. now rewrite Hacc. }
    rewrite Hf.
    assert (Hw1 : w1 = w) by (unfold w1; now rewrite Ha).
    rewrite Hw1.
    match goal with
    | |- context [failure_url eng ?msg] =>
        destruct (failure_url_cases eng msg) as [(m & Hm & ->) | ->];
        [left; now exists msg, m|]
    end.
    right. right. exists (uri_error eng). split; [now left | reflexivity].
Qed.

(** X15: however the request settles, the attempt sends nothing more
    and assigns [window.location.href] at most once.  The form is reset,
    if [form.reset] is a function, exactly when the response is
    successful and its body has a truthy [ok]; in every other case the
    controls keep what the user entered.  The target is the success
    page only for such a response, with its encoded identifiers;
    otherwise it is the failure page, also when an identifier of such a
    response cannot be encoded, which the script finds out after the
    reset.  Nothing is assigned only when the message of the error that
    the [catch] block receives cannot be encoded. *)
Theorem settled_attempt_navigates_once
  (eng : Engine) (o : FetchOutcome) (w : World) :
  let w' := submit_finish eng o w in
  requests w' = requests w
  /\ controls (form w')
     = (if accepts o && reset_is_function (form w)
        then map reset_control (controls (form w))
        else controls (form w))
  /\ ((exists msg m,
         Js.encodeURIComponent (to_string msg) = Some m
         /\ navigations w' = navigations w ++ ["/order-status.html?ok=0&msg=" +:+ m])
      \/ (exists res i j,
            o = FetchResolves res /\ accepts o = true
            /\ Js.encodeURIComponent
                 (to_string (or_else (field (body res) "order_id") (PStr EmptyString)))
               = Some i
            /\ Js.encodeURIComponent
                 (to_string (or_else (field (body res) "job_id") (PStr EmptyString)))
               = Some j
            /\ navigations w'
               = navigations w
                 ++ ["/order-status.html?ok=1&order_id=" +:+ i +:+ "&job_id=" +:+ j])
      \/ (exists err,
            (o = FetchRejects err \/ engine_error eng err)
            /\ Js.encodeURIComponent
                 (to_string (or_else (message err) (PStr "Network error"))) = None
            /\ navigations w' = navigations w)).
Proof.
  intros w'. unfold w', submit_finish. destruct o as [err|res].
  - cbv beta iota zeta.
    destruct (on_error_cases eng err w) as [(m & Hm & ->) | (Hm & ->)].
    + split; [reflexivity|]. split; [reflexivity|]. left.
      now exists (or_else (message err) (PStr "Network error")), m.
    + split; [reflexivity|]. split; [reflexivity|]. right. right. exists err. auto.
  - pose proof (on_response_cases eng res w) as Hcases. cbv zeta in Hcases.
    set (w1 := if accepts (FetchResolves res) && reset_is_function (form w)
               then reset w else w) in *.
    assert (Hreq : requests w1 = requests w)
      by (unfold w1; now destruct (accepts _ && _)).
    assert (Hnav : navigations w1 = navigations w)
      by (unfold w1; now destruct (accepts _ && _)).
    assert (Hctl : controls (form w1)
                   = (if accepts (FetchResolves res) && reset_is_function (form w)
                      then map reset_control (controls (form w))
                      else controls (form w)))
      by (unfold w1; now destruct (accepts _ && _)).
    destruct Hcases
      as [(msg & m & Hm & Ha & ->) | [(i & j & Hi & Hj & Ha & ->) | (err & He & ->)]];
      cbv beta iota zeta.
    + split; [reflexivity|]. rewrite Ha. split; [reflexivity|]. left. now exists msg, m.
    + split; [exact Hreq|]. split; [exact Hctl|].
      right. left. exists res, i, j. repeat split; try assumption.
      cbn [navigations finalize with_form navigate]. now rewrite Hnav.
    + destruct (on_error_cases eng err w1) as [(m & Hm & ->) | (Hm & ->)].
      * split; [exact Hreq|]. split; [exact Hctl|]. left.
        exists (or_else (message err) (PStr "Network error")), m.
        split; [exact Hm|]. cbn [navigations finalize with_form navigate].
        now rewrite Hnav.
      * split; [exact Hreq|]. split; [exact Hctl|]. right. right. exists err.
        split; [now right|]. split; [exact Hm | exact Hnav].
Qed.

(** An accepted order whose identifier holds a lone surrogate: the form
    is reset and the redirect goes to the failure page. *)
Example accepted_order_on_the_failure_page :
  accepts (FetchResolves accepted_unencodable) = true
  /\ navigations (submit_finish v8 (FetchResolves accepted_unencodable) complete)
     = ["/order-status.html?ok=0&msg=URI%20malformed"]
  /\ map value (controls (form (submit_finish v8 (FetchResolves accepted_unencodable)
                                  complete)))
     = [Some EmptyString].
Proof. repeat split; vm_compute; reflexivity. Qed.

(** X16: [submitOrder] does not look whether an attempt is under way.
    If a second submit event arrives before the first request has
    settled, both requests are sent, and once both have settled the
    button is enabled again but reads [Sending...]: the second attempt
    has stored the in-progress text as the original. *)
Theorem overlapping_attempts_lose_the_label
  (eng : Engine) (o1 o2 : FetchOutcome) (w : World) (b : Button) :
  snd (validateForm w) = Some true ->
  submit_button (form w) = Some b ->
  let first := fst (submit_start w) in
  let second := fst (submit_start first) in
  snd (submit_start first) = true
  /\ requests second
     = requests w
       ++ [{| req_url := "/api/orders"; req_method := "POST"; req_body := payload w |};
           {| req_url := "/api/orders"; req_method := "POST"; req_body := payload w |}]
  /\ submit_button (form (submit_finish eng o2 (submit_finish eng o1 second)))
     = Some {| disabled := false; textContent := "Sending...";
               dataset_text := Some "Sending..." |}.
Proof.
  intros Hv Hb first second.
  destruct (valid_inv w Hv) as (box & Hbox & Hm).
  pose proof (validateForm_passes w box Hbox Hm) as Hpass.
  assert (Hfirst : first
                   = send (order_request w)
                       (with_form (fst (validateForm w))
                          (with_button (form (fst (validateForm w)))
                             (option_map press (submit_button (form w)))))).
  { unfold first. now rewrite submit_start_valid. }
  assert (Hv1 : snd (validateForm first) = Some true).
  { apply passes_iff. apply passes_iff in Hv as (_ & Hc & Hr).
    rewrite Hfirst, Hpass. cbn [fst form send with_form with_button controls
                                  with_controls item_rows errorBox].
    split; [discriminate|]. split; [|exact Hr].
    apply List.Forall_map. eapply List.Forall_impl; [|exact Hc].
    intros el H. now rewrite required_marked, control_ok_marked. }
  assert (Hp1 : payload first = payload w).
  { rewrite Hfirst, Hpass. reflexivity. }
  assert (Hb1 : submit_button (form first) = Some (press b)).
  { rewrite Hfirst, Hpass. simpl. now rewrite Hb. }
  split; [now rewrite submit_start_valid|].
  split.
  - unfold second. rewrite requests_submit_start by exact Hv1.
    unfold first. rewrite requests_submit_start by exact Hv.
    unfold order_request. fold first. rewrite Hp1. now rewrite <- app_assoc.
  - rewrite !button_submit_finish. unfold second.
    rewrite submit_start_valid by exact Hv1. cbn [fst].
    destruct (valid_inv first Hv1) as (box1 & Hbox1 & Hm1).
    rewrite (validateForm_passes first box1 Hbox1 Hm1).
    cbn [fst form send with_form with_button submit_button with_controls].
    rewrite Hb1. reflexivity.
Qed.

(** X16 on the sample form: the first request is accepted, the second
    runs into a network error. *)
Lemma overlapping_attempts_lose_the_label_witness :
  snd (validateForm complete) = Some true
  /\ submit_button (form complete) = Some (send_button "Send order")
  /\ option_map textContent
       (submit_button
          (form (submit_finish v8 (FetchRejects {| message := PUndefined |})
                   (submit_finish v8 (FetchResolves accepted)
                      (fst (submit_start (fst (submit_start complete))))))))
     = Some "Sending...".
Proof.
  assert (H1 : snd (validateForm complete) = Some true) by (vm_compute; reflexivity).
  assert (H2 : submit_button (form complete) = Some (send_button "Send order"))
    by reflexivity.
  split; [exact H1|]. split; [exact H2|].
  destruct (overlapping_attempts_lose_the_label v8 (FetchResolves accepted)
              (FetchRejects {| message := PUndefined |}) complete _ H1 H2)
    as (_ & _ & Hb).
  now rewrite Hb.
Defined.

(** *** The redirect address *)

Lemma all_chars_append (p : ascii -> bool) (a b : string) :
  all_chars p (a +:+ b) = all_chars p a && all_chars p b.
Proof. unfold all_chars. now rewrite chars_append, forallb_app. Qed.

Lemma count_char_append (c : ascii) (a b : string) :
  count_char c (a +:+ b) = count_char c a + count_char c b.
Proof. unfold count_char. now rewrite chars_append, List.filter_app, length_app. Qed.

Lemma percent_is_safe (c : ascii) : all_chars url_safe (Js.percent c) = true.
Proof. destruct c as [[] [] [] [] [] [] [] []]; vm_compute; reflexivity. Qed.

Lemma encoded_is_safe (s : string) :
  forall e, Js.encodeURIComponent s = Some e -> all_chars url_safe e = true.
Proof.
  induction s as [|c r IH]; intros e H.
  - injection H as <-. reflexivity.
  - simpl in H.
    destruct (match r with
              | EmptyString => false
              | String d _ => Js.surrogate_lead c d
              end); [discriminate H|].
    destruct (Js.encodeURIComponent r) as [e'|]; [|discriminate H].
    simpl in H. injection H as <-.
    rewrite all_chars_append, (IH e' eq_refl), andb_true_r.
    destruct (Js.unreserved c) eqn:E; [|apply percent_is_safe].
    unfold all_chars, url_safe. simpl. now rewrite E.
Qed.

Lemma count_char_absent (p : ascii -> bool) (c : ascii) (s : string) :
  all_chars p s = true -> p c = false -> count_char c s = 0.
Proof.
  unfold all_chars, count_char. intros Hs Hc.
  induction (list_ascii_of_string s) as [|x l IH]; [reflexivity|].
  simpl in *. apply andb_prop in Hs as [Hx Hl].
  destruct (Ascii.eqb_spec c x) as [<-|]; [congruence | now apply IH].
Qed.

(** X17: whatever the message or the identifiers read, their encoded
    form holds only unreserved characters and percent signs, so every
    redirect address the script builds has exactly the parameters the
    script writes: one question mark, no fragment, and two parameters
    on the failure page or three on the success page. *)
Theorem redirect_address_is_well_formed
  (eng : Engine) (msg orderId jobId : Prim) (s : string) :
  (forall e, Js.encodeURIComponent s = Some e -> all_chars url_safe e = true)
  /\ (forall href, failure_url eng msg = Normal href ->
        count_char "?" href = 1 /\ count_char "&" href = 1
        /\ count_char "=" href = 2 /\ count_char "#" href = 0)
  /\ (forall href, success_url eng orderId jobId = Normal href ->
        count_char "?" href = 1 /\ count_char "&" href = 2
        /\ count_char "=" href = 3 /\ count_char "#" href = 0).
Proof.
  assert (H : forall t e, Js.encodeURIComponent t = Some e ->
                          forall c, url_safe c = false -> count_char c e = 0).
  { intros t e He c Hc. apply (count_char_absent url_safe); [|exact Hc].
    now apply (encoded_is_safe t). }
  split; [apply encoded_is_safe|].
  unfold failure_url, success_url, encode. split.
  - intros href.
    destruct (Js.encodeURIComponent (to_string msg)) as [m|] eqn:Em; [|discriminate].
    simpl. intros [= <-].
    rewrite !count_char_append, !(H _ _ Em) by reflexivity. repeat split.
  - intros href.
    destruct (Js.encodeURIComponent (to_string orderId)) as [i|] eqn:Ei; [|discriminate].
    destruct (Js.encodeURIComponent (to_string jobId)) as [j|] eqn:Ej; [|discriminate].
    simpl. intros [= <-].
    rewrite !count_char_append, !(H _ _ Ei), !(H _ _ Ej) by reflexivity.
    repeat split.
Qed.

(** X17 on a message that holds the characters a query string reads
    specially. *)
Lemma redirect_address_is_well_formed_witness :
  failure_url v8 (PStr "a&b=c#d?") = Normal "/order-status.html?ok=0&msg=a%26b%3Dc%23d%3F"
  /\ count_char "&" "/order-status.html?ok=0&msg=a%26b%3Dc%23d%3F" = 1
  /\ count_char "#" "/order-status.html?ok=0&msg=a%26b%3Dc%23d%3F" = 0.
Proof.
  assert (H : failure_url v8 (PStr "a&b=c#d?")
              = Normal "/order-status.html?ok=0&msg=a%26b%3Dc%23d%3F") by reflexivity.
  destruct (redirect_address_is_well_formed v8 (PStr "a&b=c#d?") PNull PNull EmptyString)
    as (_ & Hf & _).
  destruct (Hf _ H) as (_ & H1 & _ & H2).
  split; [exact H|]. split; [exact H1 | exact H2].
Defined.

End OrderFormMore.

(** ** Properties of the earliest variant of the slideshow controller *)

Module PortfolioV1Facts.

Import Portfolio PortfolioFacts.

Section Variants.

Variable cfg : Config.
Variable pg : Page.

Lemma tick_agrees (sh : Slideshow) :
  PortfolioV1.state_of (PortfolioV1.tick cfg pg sh) = tick cfg pg sh.
Proof.
  unfold PortfolioV1.tick, tick, PortfolioV1.renderSlide, renderSlide,
    PortfolioV1.updateStatus, updateStatus, PortfolioV1.images.
  now destruct (slidesTrack pg), (statusEl pg).
Qed.

Lemma openLightbox_agrees (url label : string) (s : State) :
  lightbox pg = true ->
  PortfolioV1.state_of (PortfolioV1.openLightbox pg url label s)
  = openLightbox pg url label s.
Proof.
  intros H. unfold PortfolioV1.openLightbox, openLightbox. rewrite H.
  now destruct (lightboxImg pg), (lightboxCaption pg).
Qed.

Lemma closeLightbox_agrees (s : State) :
  PortfolioV1.state_of (PortfolioV1.closeLightbox pg s) = closeLightbox pg s.
Proof.
  unfold PortfolioV1.closeLightbox, closeLightbox.
  now destruct (lightbox pg), (lightboxImg pg).
Qed.

Lemma thumbs_agree :
  THUMB_FOLDER cfg = FOLDER cfg ->
  imap (PortfolioV1.thumb_of cfg) (fullImages cfg)
  = imap (thumb_of cfg) (fullImages cfg).
Proof.
  intros Hf. apply imap_ext. intros i url Hi.
  unfold PortfolioV1.thumb_of, thumb_of, PortfolioV1.images. f_equal.
  unfold thumbImages. rewrite Hf. fold (fullImages cfg). rewrite Hi. simpl.
  unfold Js.or_else. now destruct (Js.truthy url).
Qed.

(** X18: on a page that has the slide track, the status label, the
    gallery, the lightbox, its close button and its backdrop, the
    earliest variant of the script and the later one, configured to
    take the thumbnails from the slides folder, start in the same state
    and answer every event alike. *)
Theorem variants_agree_on_complete_pages :
  PortfolioV1.mounts_present pg = true ->
  THUMB_FOLDER cfg = FOLDER cfg ->
  (forall m, PortfolioV1.load cfg pg m = load cfg pg m)
  /\ (forall s e, PortfolioV1.enabled pg s e = enabled pg s e)
  /\ (forall s e, PortfolioV1.handle cfg pg s e = handle cfg pg s e)
  /\ (forall m es, PortfolioV1.run cfg pg (PortfolioV1.load cfg pg m) es
                   = run cfg pg (load cfg pg m) es).
Proof.
  intros Hm Hf. unfold PortfolioV1.mounts_present in Hm.
  apply andb_prop in Hm as [Hm H6]. apply andb_prop in Hm as [Hm H5].
  apply andb_prop in Hm as [Hm H4]. apply andb_prop in Hm as [Hm H3].
  apply andb_prop in Hm as [H1 H2].
  assert (Hload : forall m, PortfolioV1.load cfg pg m = load cfg pg m).
  { intros m. unfold PortfolioV1.load, load, PortfolioV1.later_listeners,
      PortfolioV1.untouched, PortfolioV1.images.
    rewrite H5, H6. simpl.
    destruct (length (fullImages cfg) =? 0); [reflexivity|].
    unfold PortfolioV1.renderSlide, renderSlide, PortfolioV1.updateStatus,
      updateStatus, PortfolioV1.renderGallery, renderGallery, PortfolioV1.images.
    rewrite H1, H2, H3. simpl. now rewrite thumbs_agree. }
  assert (Hhandle : forall s e, PortfolioV1.handle cfg pg s e = handle cfg pg s e).
  { intros s e. unfold PortfolioV1.handle, handle, PortfolioV1.close_listener,
      PortfolioV1.later_listeners.
    rewrite H4, H5, H6. simpl.
    destruct e as [id|i| | |key|hidden|entries];
      rewrite ?tick_agrees, ?closeLightbox_agrees; try reflexivity.
    - destruct (thumbs (gal s) !! i); [now apply openLightbox_agrees | reflexivity].
    - rewrite andb_true_r.
      destruct (String.eqb key "Escape"), (lb_hidden (lbox s)); reflexivity. }
  split; [exact Hload|]. split; [reflexivity|]. split; [exact Hhandle|].
  intros m es. rewrite Hload. generalize (load cfg pg m).
  induction es as [|e es IH]; intros s; simpl; [reflexivity|].
  now rewrite Hhandle, IH.
Qed.

(** X19: in the earliest variant a page without the close button of
    the lightbox stays as the markup delivers it: the script throws at
    its first listener, so the slide track, the status text and the
    lightbox are those of the markup, no gallery is built, no timer is
    started, and no event that can occur changes anything; the later
    variant starts autoplay on such a page. *)
Theorem earliest_variant_needs_the_close_button (m : Markup) :
  lightboxClose pg = false ->
  let s := PortfolioV1.load cfg pg m in
  show s = {| idx := Fin 0; track := m_track m; status := m_status m |}
  /\ lbox s = m_lbox m
  /\ timer s = {| autoplay := None; active := []; last_id := m_last_id m |}
  /\ gal s = {| thumbs := []; rootMargin := None; loads := [] |}
  /\ (forall e, PortfolioV1.enabled pg s e = true -> PortfolioV1.handle cfg pg s e = s)
  /\ (forall s', PortfolioV1.reachable cfg pg s' ->
        exists m', s' = PortfolioV1.load cfg pg m')
  /\ (1 <= COUNT cfg -> autoplay (timer (load cfg pg m)) = Some (S (m_last_id m))).
Proof.
  intros Hc s.
  assert (Hload : forall m', PortfolioV1.load cfg pg m' = PortfolioV1.untouched m').
  { intros m'. unfold PortfolioV1.load, PortfolioV1.later_listeners. now rewrite Hc. }
  assert (Hstep : forall m' e,
            PortfolioV1.enabled pg (PortfolioV1.untouched m') e = true ->
            PortfolioV1.handle cfg pg (PortfolioV1.untouched m') e
            = PortfolioV1.untouched m').
  { intros m' e He.
    unfold PortfolioV1.handle, PortfolioV1.close_listener, PortfolioV1.later_listeners.
    rewrite Hc. simpl.
    destruct e as [id|i| | |key|hidden|entries]; try reflexivity;
      unfold PortfolioV1.enabled, PortfolioV1.untouched in He;
      cbn [timer active gal thumbs rootMargin] in He; apply bool_decide_eq_true in He.
    - inversion He.
    - destruct He as [x Hx]. discriminate Hx. }
  unfold s. rewrite Hload.
  split; [reflexivity|]. split; [reflexivity|]. split; [reflexivity|].
  split; [reflexivity|].
  split; [apply Hstep|].
  split.
  - intros s' Hs'. induction Hs' as [m' | s' e _ [m' ->] He].
    + now exists m'.
    + exists m'. rewrite Hload in *. now apply Hstep.
  - intros H1. unfold load. rewrite length_fullImages.
    destruct (Nat.eqb_spec (COUNT cfg) 0); [lia | reflexivity].
Qed.

End Variants.

(** X18 at the site. *)
Lemma variants_agree_on_complete_pages_witness :
  PortfolioV1.mounts_present full_page = true
  /\ THUMB_FOLDER PortfolioV1.site_v1 = FOLDER PortfolioV1.site_v1
  /\ PortfolioV1.run PortfolioV1.site_v1 full_page
       (PortfolioV1.load PortfolioV1.site_v1 full_page plain_markup) scrolling
     = run PortfolioV1.site_v1 full_page
         (load PortfolioV1.site_v1 full_page plain_markup) scrolling.
Proof.
  assert (H1 : PortfolioV1.mounts_present full_page = true) by reflexivity.
  assert (H2 : THUMB_FOLDER PortfolioV1.site_v1 = FOLDER PortfolioV1.site_v1)
    by reflexivity.
  split; [exact H1|]. split; [exact H2|].
  exact (proj2 (proj2 (proj2 (variants_agree_on_complete_pages
                                PortfolioV1.site_v1 full_page H1 H2))) _ _).
Defined.

(** X19 at the site, on a page without the close button: the page
    becoming visible changes nothing. *)
Lemma earliest_variant_needs_the_close_button_witness :
  lightboxClose PortfolioV1.page_without_close = false
  /\ PortfolioV1.enabled PortfolioV1.page_without_close
       (PortfolioV1.load PortfolioV1.site_v1 PortfolioV1.page_without_close plain_markup)
       (VisibilityChange false) = true
  /\ PortfolioV1.handle PortfolioV1.site_v1 PortfolioV1.page_without_close
       (PortfolioV1.load PortfolioV1.site_v1 PortfolioV1.page_without_close plain_markup)
       (VisibilityChange false)
     = PortfolioV1.load PortfolioV1.site_v1 PortfolioV1.page_without_close plain_markup
  /\ track (show (PortfolioV1.load PortfolioV1.site_v1 PortfolioV1.page_without_close
                    plain_markup))
     = m_track plain_markup.
Proof.
  assert (H1 : lightboxClose PortfolioV1.page_without_close = false) by reflexivity.
  assert (H2 : PortfolioV1.enabled PortfolioV1.page_without_close
                 (PortfolioV1.load PortfolioV1.site_v1 PortfolioV1.page_without_close
                    plain_markup)
                 (VisibilityChange false) = true) by reflexivity.
  destruct (earliest_variant_needs_the_close_button PortfolioV1.site_v1
              PortfolioV1.page_without_close plain_markup H1)
    as (Hshow & _ & _ & _ & Hstep & _).
  split; [exact H1|]. split; [exact H2|]. split; [exact (Hstep _ H2)|].
  now rewrite Hshow.
Defined.

End PortfolioV1Facts.
